(** * FreeBencode (lib/util/bencode.py): a shallow embedding and its properties

    The module is Python 2 code.  A Python [str] is a byte string and is
    modelled by [string]; [int]/[long] are unbounded and modelled by [Z];
    exceptions are modelled by an explicit outcome type.  The recursion
    limit of the interpreter is not part of the module and is not
    modelled. *)

From Stdlib Require Import ZArith Lia List String Ascii Bool Arith.
From Stdlib Require Import Permutation Sorted.
Import ListNotations.

Local Open Scope string_scope.
Local Open Scope Z_scope.

(** ** Python primitives used by the module *)

Module Py.

(** Exceptions that the module raises or lets escape.  [BencodeError]
    carries its message; the builtin exceptions are kept abstract. *)
Inductive exn : Type :=
| BencodeError (msg : string)
| ValueError
| TypeError
| IndexError
| KeyError.

(** The outcome of a call: a returned value, a raised exception, or the
    exhaustion of the recursion budget of the model (which the decoder is
    proved never to reach). *)
Inductive outcome (A : Type) : Type :=
| Ok (a : A)
| Raise (e : exn)
| OutOfFuel.

Arguments Ok {A} a.
Arguments Raise {A} e.
Arguments OutOfFuel {A}.

Definition bind {A B : Type} (m : outcome A) (k : A -> outcome B) : outcome B :=
  match m with
  | Ok a => k a
  | Raise e => Raise e
  | OutOfFuel => OutOfFuel
  end.

(** [len(s)] *)
Definition len (s : string) : Z := Z.of_nat (String.length s).

(** Truth value of a [str]: the empty string is false. *)
Definition truthy (s : string) : bool :=
  match s with
  | EmptyString => false
  | String _ _ => true
  end.

(** [s[n:]] for [n >= 0] *)
Fixpoint slice_from (n : nat) (s : string) : string :=
  match n, s with
  | O, _ => s
  | S n', String _ s' => slice_from n' s'
  | S _, EmptyString => EmptyString
  end.

(** [s[0:n]] for [n >= 0] *)
Fixpoint slice_to (n : nat) (s : string) : string :=
  match n, s with
  | O, _ => EmptyString
  | S n', String c s' => String c (slice_to n' s')
  | S _, EmptyString => EmptyString
  end.

(** [s[0]], which raises [IndexError] on the empty string. *)
Definition item0 (s : string) : outcome ascii :=
  match s with
  | EmptyString => Raise IndexError
  | String c _ => Ok c
  end.

(** [s.partition(sep)] for a one-character separator: the part before the
    first occurrence, the separator, and the part after it; when the
    separator does not occur, the whole string and two empty strings. *)
Fixpoint partition (sep : ascii) (s : string) : string * string * string :=
  match s with
  | EmptyString => (EmptyString, EmptyString, EmptyString)
  | String c s' =>
      if Ascii.eqb c sep then (EmptyString, String sep EmptyString, s')
      else let '(before, found, after) := partition sep s' in
           (String c before, found, after)
  end.

(** [c.isdigit()] for a single byte. *)
Definition isdigit (c : ascii) : bool :=
  let n := N_of_ascii c in (48 <=? n)%N && (n <=? 57)%N.

(** C [isspace] in the C locale: tab, newline, vertical tab, form feed,
    carriage return, space. *)
Definition isspace (c : ascii) : bool :=
  let n := N_of_ascii c in ((9 <=? n)%N && (n <=? 13)%N) || (n =? 32)%N.

Definition digit_val (c : ascii) : Z := Z.of_N (N_of_ascii c) - 48.

Definition digit_char (d : Z) : ascii := ascii_of_N (Z.to_N (48 + d)).

(** Value of a run of decimal digits, most significant first. *)
Fixpoint digits_value (acc : Z) (s : string) : Z :=
  match s with
  | EmptyString => acc
  | String c s' => digits_value (10 * acc + digit_val c) s'
  end.

Fixpoint all_digits (s : string) : bool :=
  match s with
  | EmptyString => true
  | String c s' => isdigit c && all_digits s'
  end.

Fixpoint skip_space (s : string) : string :=
  match s with
  | String c s' => if isspace c then skip_space s' else s
  | EmptyString => s
  end.

(** The longest prefix of digits and what follows it. *)
Fixpoint span_digits (s : string) : string * string :=
  match s with
  | String c s' =>
      if isdigit c then let '(ds, rest) := span_digits s' in (String c ds, rest)
      else (EmptyString, s)
  | EmptyString => (EmptyString, EmptyString)
  end.

(** The builtins [int(s)] and [long(s)] on a [str], as CPython 2.7
    implements them in base 10: white space, an optional sign, white
    space, at least one digit, for [long] an optional [L] or [l], white
    space, end of string.  [None] stands for the [ValueError] of the
    builtin. *)
Definition parse_literal (long_suffix : bool) (s : string) : option Z :=
  let s1 := skip_space s in
  let '(negative, s2) :=
    match s1 with
    | String "-" r => (true, r)
    | String "+" r => (false, r)
    | _ => (false, s1)
    end in
  let '(ds, rest) := span_digits (skip_space s2) in
  if truthy ds then
    let rest' :=
      match rest with
      | String "L" r => if long_suffix then r else rest
      | String "l" r => if long_suffix then r else rest
      | _ => rest
      end in
    if truthy (skip_space rest') then None
    else Some (if negative then - digits_value 0 ds else digits_value 0 ds)
  else None.

(** [int(s)] on a [str] *)
Definition int_of_str (s : string) : option Z := parse_literal false s.

(** [long(s)] on a [str] *)
Definition long_of_str (s : string) : option Z := parse_literal true s.

(** Decimal digits of a non-negative number, prepended to [acc]. *)
Fixpoint digits_of (fuel : nat) (n : Z) (acc : string) : string :=
  match fuel with
  | O => acc
  | S fuel' =>
      let acc' := String (digit_char (n mod 10)) acc in
      if n <? 10 then acc' else digits_of fuel' (n / 10) acc'
  end.

(** ["{0:d}".format(n)] and ["{0:-d}".format(n)]: the decimal digits of
    [n], preceded by a minus sign when [n] is negative. *)
Definition format_d (n : Z) : string :=
  let m := Z.abs n in
  let ds := digits_of (S (Z.to_nat (Z.log2 m))) m EmptyString in
  if n <? 0 then String "-" ds else ds.

End Py.

Import Py.

(** The Python 2 type [str]. *)
Abbreviation str := String.string (only parsing).

Declare Scope outcome_scope.
Delimit Scope outcome_scope with outcome.
Notation "x <- m ;; k" := (bind m (fun x => k))
  (at level 61, m at next level, right associativity) : outcome_scope.
Notation "' p <- m ;; k" := (bind m (fun x => let 'p := x in k))
  (at level 61, p pattern, m at next level, right associativity) : outcome_scope.
Local Open Scope outcome_scope.

(** ** Values *)

(** Keys of a Python [dict] that occur here: numbers and byte strings.
    Lists and dictionaries are not hashable. *)
Inductive dkey : Type :=
| KInt (n : Z)
| KStr (s : string).

(** Python objects handled by the module.  [VList] stands for the
    members of [list_types].  A [dict] is the list of its items, with
    pairwise distinct keys; the order of the list stands for the
    iteration order, which Python leaves unspecified and on which the
    module does not depend ([bencode_dict] sorts the keys).  [VNone]
    stands for an object of a type that none of [int_types],
    [str_types], [list_types], [dict_types] lists. *)
#[local] Unset Elimination Schemes.
Inductive value : Type :=
| VInt (n : Z)
| VBool (b : bool)
| VStr (s : string)
| VList (xs : list value)
| VDict (items : list (dkey * value))
| VNone.
#[local] Set Elimination Schemes.

Definition dict : Type := list (dkey * value).

Definition dkey_eqb (a b : dkey) : bool :=
  match a, b with
  | KInt n, KInt m => n =? m
  | KStr s, KStr t => String.eqb s t
  | _, _ => false
  end.

(** [str(k)] for a key *)
Definition str_of_key (k : dkey) : string :=
  match k with
  | KInt n => format_d n
  | KStr s => s
  end.

(** The key under which [result[obj] = ...] stores: [hash(obj)]
    succeeds on numbers and strings and raises [TypeError] on lists and
    dictionaries, the only other objects that the decoder produces. *)
Definition key_of_value (v : value) : outcome dkey :=
  match v with
  | VInt n => Ok (KInt n)
  | VBool b => Ok (KInt (if b then 1 else 0))
  | VStr s => Ok (KStr s)
  | VList _ => Raise TypeError
  | VDict _ => Raise TypeError
  | VNone => Raise TypeError
  end.

Section Dict.
Context {V : Type}.

(** [d[k]], which raises [KeyError] when [k] is not a key of [d]. *)
Fixpoint dict_getitem (d : list (dkey * V)) (k : dkey) : outcome V :=
  match d with
  | [] => Raise KeyError
  | (k', v) :: d' => if dkey_eqb k' k then Ok v else dict_getitem d' k
  end.

(** [d[k] = v]: replaces the value of an existing key, adds a new one. *)
Fixpoint dict_setitem (d : list (dkey * V)) (k : dkey) (v : V) : list (dkey * V) :=
  match d with
  | [] => [(k, v)]
  | (k', v') :: d' =>
      if dkey_eqb k' k then (k', v) :: d' else (k', v') :: dict_setitem d' k v
  end.

(** [d.keys()] *)
Definition dict_keys (d : list (dkey * V)) : list dkey := map fst d.
End Dict.

(** [keys.sort()] on a list of [str]: ascending byte-wise order.  The
    order is total and antisymmetric, so the sorted list does not depend
    on the sorting algorithm; insertion sort stands for Python's. *)
Fixpoint insert_sorted (k : string) (ks : list string) : list string :=
  match ks with
  | [] => [k]
  | k' :: ks' => if String.leb k k' then k :: ks else k' :: insert_sorted k ks'
  end.

Fixpoint sort (ks : list string) : list string :=
  match ks with
  | [] => []
  | k :: ks' => insert_sorted k (sort ks')
  end.

(** ["".join(f(x) for x in xs)], stopping at the first exception. *)
Fixpoint join_map {A : Type} (f : A -> outcome string) (xs : list A) : outcome string :=
  match xs with
  | [] => Ok ""
  | x :: xs' => s <- f x ;; rest <- join_map f xs' ;; Ok (s ++ rest)%string
  end.

(** ** Messages of [BencodeError]

    The module has one exception class and tells the failures apart by
    their message.  The error kinds of the specification name them:
    [msg_empty] is EmptyInput, [msg_no_type] MissingTypeIndicator,
    [msg_int_start] and [msg_int_end] UnterminatedInteger,
    [msg_str_length] and [msg_str_negative] InvalidStringLength,
    [msg_str_long] TruncatedString, [msg_list_end] UnterminatedList,
    [msg_dict_odd] OddDictItemCount, [msg_unrecognized]
    UnrecognizedType.  [msg_str_colon], [msg_list_start],
    [msg_dict_start] and the wrapper [msg_dict_items] have no kind of
    their own there. *)

Definition msg_unrecognized : string := "Cannot bencode object: unrecognized type.".
Definition msg_empty : string := "Invalid bencoded object: empty.".
Definition msg_no_type : string := "Invalid bencoded object: no type indicator.".
Definition msg_int_start : string := "Invalid bencoded int: string does not start with i.".
Definition msg_int_end : string := "Invalid bencoded int: string does not terminate.".
Definition msg_str_colon : string := "Invalid bencoded string: string does not contain ':'.".
Definition msg_str_length : string := "Invalid bencoded string: string length not an integer.".
Definition msg_str_negative : string := "Invalid bencoded string: negative length.".
Definition msg_str_long : string := "Invalid bencoded string: Too long length.".
Definition msg_list_start : string := "Invalid bencoded list: string does not start with 'l'.".
Definition msg_list_end : string := "Invalid bencoded list: did not terminate with 'e'.".
Definition msg_dict_start : string := "Invalid bencoded dict: string does not start with 'd'.".
Definition msg_dict_odd : string := "Invalid bencoded dict: odd number of items.".

Definition double_quote : string := String "034" EmptyString.

Definition msg_dict_items (err : string) : string :=
  "Error while decoding dict items as list:" ++ double_quote ++ err ++ double_quote.

(** ** The encoder *)

(** [bencode_int]: ["i{0:-d}e".format(long(obj))] *)
Definition bencode_int (n : Z) : string := "i" ++ format_d n ++ "e".

(** [bencode_str]: ["{0:d}:{1:s}".format(len(obj), str(obj))] *)
Definition bencode_str (s : string) : string := format_d (len s) ++ ":" ++ s.

(** [long(obj)] for the members of [int_types]. *)
Definition long_of_bool (b : bool) : Z := if b then 1 else 0.

Section Encoder.
(** The recursive reference to [bencode]. *)
Variable bencode : value -> outcome string.

(** [bencode_list]: ["l{0:s}e".format("".join((bencode(x) for x in obj)))] *)
Definition bencode_list (obj : list value) : outcome string :=
  body <- join_map bencode obj ;;
  Ok ("l" ++ body ++ "e")%string.

(** [bencode_dict]: the keys are cast to [str] and sorted; each one is
    then emitted as a string, followed by the encoding of [obj[k]]
    (looked up under the cast key). *)
Definition bencode_dict (obj : dict) : outcome string :=
  let keys := sort (map str_of_key (dict_keys obj)) in
  body <- join_map (fun k => v <- dict_getitem obj (KStr k) ;;
                             e <- bencode v ;;
                             Ok (bencode_str k ++ e)%string) keys ;;
  Ok ("d" ++ body ++ "e")%string.

(** The body of [bencode]: dispatch on the type of [obj]. *)
Definition bencode_body (obj : value) : outcome string :=
  match obj with
  | VInt n => Ok (bencode_int n)
  | VBool b => Ok (bencode_int (long_of_bool b))
  | VStr s => Ok (bencode_str s)
  | VList xs => bencode_list xs
  | VDict items => bencode_dict items
  | VNone => Raise (BencodeError msg_unrecognized)
  end.
End Encoder.

(** [bencode], by structural recursion.  The items of a dictionary are
    encoded lazily next to their keys, so that the encoding of [obj[k]]
    is found by the look-up itself; [bencode_unfold] below shows that
    this is the body above applied to [bencode]. *)
Fixpoint bencode (obj : value) : outcome string :=
  match obj with
  | VInt n => Ok (bencode_int n)
  | VBool b => Ok (bencode_int (long_of_bool b))
  | VStr s => Ok (bencode_str s)
  | VList xs =>
      body <- join_map (fun e : outcome string => e) (map bencode xs) ;;
      Ok ("l" ++ body ++ "e")%string
  | VDict items =>
      let encoded := map (fun kv => (fst kv, bencode (snd kv))) items in
      let keys := sort (map str_of_key (dict_keys items)) in
      body <- join_map (fun k => r <- dict_getitem encoded (KStr k) ;;
                                 e <- r ;;
                                 Ok (bencode_str k ++ e)%string) keys ;;
      Ok ("d" ++ body ++ "e")%string
  | VNone => Raise (BencodeError msg_unrecognized)
  end.

(** ** The decoder *)

(** The module variables [int_factory = long], [str_factory = str],
    [list_factory = list] and [dict_factory = dict]; every call in the
    module leaves the optional [factory] argument at this default. *)
Definition int_factory (s : str) : outcome value :=
  match long_of_str s with
  | Some n => Ok (VInt n)
  | None => Raise ValueError
  end.

Definition str_factory (s : str) : value := VStr s.
Definition list_factory (xs : list value) : value := VList xs.
Definition dict_factory (d : dict) : value := VDict d.

(** [bdecode_int] *)
Definition bdecode_int (string : str) : outcome (value * str) :=
  if (len string <=? 2) || negb (match string with String "i" _ => true | _ => false end)
  then Raise (BencodeError msg_int_start)
  else
    let '(before, _, after) := partition "e" string in
    if negb (truthy after) then Raise (BencodeError msg_int_end)
    else n <- int_factory (slice_from 1 before) ;; Ok (n, after).

(** [bdecode_str] *)
Definition bdecode_str (string : str) : outcome (value * str) :=
  let '(before, _, after) := partition ":" string in
  if negb (truthy after) then Raise (BencodeError msg_str_colon)
  else
    match int_of_str before with
    | None => Raise (BencodeError msg_str_length)
    | Some length =>
        if length <? 0 then Raise (BencodeError msg_str_negative)
        else if len after <? length then Raise (BencodeError msg_str_long)
        else Ok (str_factory (slice_to (Z.to_nat length) after),
                 slice_from (Z.to_nat length) after)
    end.

(** The loop of [bdecode_dict]:
    [for i in range(0, len(items), 2): result[items[i]] = items[i+1]],
    on a list of even length. *)
Fixpoint dict_fill (items : list value) (result : dict) : outcome dict :=
  match items with
  | k :: v :: rest => key <- key_of_value k ;; dict_fill rest (dict_setitem result key v)
  | _ => Ok result
  end.

Section Decoder.
(** The recursive reference to [bdecode]. *)
Variable bdecode : str -> outcome (value * str).

(** The loop of [bdecode_list]:
    [while leftovers and leftovers[0] != 'e': ...].  The bound [n] on
    the number of iterations is a device of the model. *)
Fixpoint bdecode_list_loop (n : nat) (leftovers : str) (result : list value)
  : outcome (list value * str) :=
  match n with
  | O => OutOfFuel
  | S n' =>
      match leftovers with
      | EmptyString => Ok (result, leftovers)
      | String "e" _ => Ok (result, leftovers)
      | _ =>
          res <- bdecode leftovers ;;
          bdecode_list_loop n' (snd res) (result ++ [fst res])
      end
  end.

(** [bdecode_list] *)
Definition bdecode_list (string : str) : outcome (value * str) :=
  c <- item0 string ;;
  if negb (Ascii.eqb c "l") then Raise (BencodeError msg_list_start)
  else
    ' (result, leftovers) <-
      bdecode_list_loop (S (String.length string)) (slice_from 1 string) [] ;;
    if negb (truthy leftovers) then Raise (BencodeError msg_list_end)
    else Ok (list_factory result, slice_from 1 leftovers).

(** [bdecode_dict]: only a [BencodeError] of [bdecode_list] is caught
    and wrapped.  [bdecode_list] returns a list; the last branch, for
    another kind of object, is never taken. *)
Definition bdecode_dict (string : str) : outcome (value * str) :=
  c <- item0 string ;;
  if negb (Ascii.eqb c "d") then Raise (BencodeError msg_dict_start)
  else
    match bdecode_list ("l" ++ slice_from 1 string) with
    | Raise (BencodeError err) => Raise (BencodeError (msg_dict_items err))
    | Raise e => Raise e
    | OutOfFuel => OutOfFuel
    | Ok (VList items, leftovers) =>
        if negb (Nat.eqb (Nat.modulo (List.length items) 2) 0)
        then Raise (BencodeError msg_dict_odd)
        else result <- dict_fill items [] ;; Ok (dict_factory result, leftovers)
    | Ok (_, _) => Raise TypeError
    end.

(** The body of [bdecode]: dispatch on the first byte. *)
Definition bdecode_body (string : str) : outcome (value * str) :=
  match string with
  | EmptyString => Raise (BencodeError msg_empty)
  | String char _ =>
      if Ascii.eqb char "i" then bdecode_int string
      else if Ascii.eqb char "l" then bdecode_list string
      else if Ascii.eqb char "d" then bdecode_dict string
      else if isdigit char then bdecode_str string
      else Raise (BencodeError msg_no_type)
  end.
End Decoder.

(** [bdecode] with a bound on the depth of the recursion. *)
Fixpoint bdecode_fuel (fuel : nat) (string : str) : outcome (value * str) :=
  match fuel with
  | O => OutOfFuel
  | S fuel' => bdecode_body (bdecode_fuel fuel') string
  end.

(** [bdecode]: every level of nesting consumes a byte, so the length of
    the input bounds the depth ([bdecode_unfold] and [bdecode_total]
    below). *)
Definition bdecode (string : str) : outcome (value * str) :=
  bdecode_fuel (S (String.length string)) string.

(** ** Vocabulary of the statements *)

(** [r] is what remains of [s] after a prefix [p] was consumed. *)
Definition suffix (r s : str) : Prop := exists p, s = (p ++ r)%string.

Definition proper_suffix (r s : str) : Prop :=
  exists p, p <> "" /\ s = (p ++ r)%string.

(** Whether a byte occurs in a string. *)
Fixpoint occurs (c : ascii) (s : str) : bool :=
  match s with
  | EmptyString => false
  | String a s' => Ascii.eqb a c || occurs c s'
  end.

(** A parser is shrinking when every successful call consumes at least
    one byte: the remainder is a proper suffix of the input. *)
Definition shrinking (f : str -> outcome (value * str)) : Prop :=
  forall s v r, f s = Ok (v, r) -> proper_suffix r s.




(** [ds] is the canonical decimal numeral of [n]: a non-empty run of
    digits that denotes [n] and has no leading zero, the numeral [0]
    apart. *)
Definition canonical_digits (n : Z) (ds : str) : Prop :=
  ds <> "" /\ all_digits ds = true /\ digits_value 0 ds = n /\
  (forall ds', ds = String "0" ds' -> ds' = "").

(** The optional minus sign of a numeral, and its effect on the value. *)
Definition sign_str (negative : bool) : str := if negative then "-" else "".

Definition signed (negative : bool) (n : Z) : Z := if negative then - n else n.

(** The exceptions that [bdecode] can raise. *)
Definition bdecode_exn (e : exn) : Prop :=
  match e with
  | BencodeError _ | ValueError | TypeError => True
  | IndexError | KeyError => False
  end.

(** The entries of a dictionary body that stand in key position. *)
Fixpoint key_entries (items : list value) : list value :=
  match items with
  | k :: _ :: rest => k :: key_entries rest
  | _ => []
  end.

(** Integers and byte strings, the kinds of value that are hashable. *)
Definition hashable (v : value) : Prop :=
  match v with
  | VInt _ | VBool _ | VStr _ => True
  | _ => False
  end.

(** The byte-wise order of Python 2 on [str], and its strict part. *)
Definition str_le (a b : str) : Prop := String.leb a b = true.

(** A key that is a byte string. *)
Definition is_str_key (k : dkey) : Prop :=
  match k with
  | KStr _ => True
  | KInt _ => False
  end.

(** The values of the data model: integers, byte strings, lists, and
    dictionaries with pairwise distinct byte-string keys. *)
Fixpoint bencodable (v : value) : Prop :=
  match v with
  | VInt _ => True
  | VStr _ => True
  | VList xs => fold_right (fun x P => bencodable x /\ P) True xs
  | VDict items =>
      NoDup (dict_keys items) /\ Forall is_str_key (dict_keys items) /\
      fold_right (fun kv P => bencodable (snd kv) /\ P) True items
  | VBool _ => False
  | VNone => False
  end.

(** Python's [==] on values: numbers by value, strings and lists
    element-wise, dictionaries as mappings, whatever the order of their
    items. *)
Fixpoint value_eqb (a b : value) : bool :=
  match a, b with
  | VInt n, VInt m => n =? m
  | VInt n, VBool c => n =? long_of_bool c
  | VBool c, VInt m => long_of_bool c =? m
  | VBool c, VBool c' => Bool.eqb c c'
  | VStr s, VStr t => String.eqb s t
  | VList xs, VList ys =>
      (fix all2 (xs : list value) (ys : list value) : bool :=
         match xs, ys with
         | [], [] => true
         | x :: xs', y :: ys' => value_eqb x y && all2 xs' ys'
         | _, _ => false
         end) xs ys
  | VDict items, VDict items' =>
      Nat.eqb (List.length items) (List.length items') &&
      forallb (fun kv => match dict_getitem items' (fst kv) with
                         | Ok v' => value_eqb (snd kv) v'
                         | _ => false
                         end) items
  | VNone, VNone => true
  | _, _ => false
  end.

(** The value that the decoder rebuilds from an encoding: the items of
    every dictionary come in ascending order of their keys. *)
Fixpoint rebuilt (v : value) : value :=
  match v with
  | VList xs => VList (map rebuilt xs)
  | VDict items =>
      let items' := map (fun kv => (fst kv, rebuilt (snd kv))) items in
      VDict (map (fun k => (KStr k, match dict_getitem items' (KStr k) with
                                    | Ok v' => v'
                                    | _ => VNone
                                    end))
                 (sort (map str_of_key (dict_keys items))))
  | VBool b => VInt (long_of_bool b)
  | _ => v
  end.

(** An encoding [enc] of a value that the decoder reads back as [v],
    whatever non-empty input follows it. *)
Definition decodes_to (enc : str) (v : value) : Prop :=
  (exists c s, enc = String c s /\ c <> "e"%char) /\
  forall rest : str, rest <> "" -> bdecode (enc ++ rest) = Ok (v, rest).

(** ** Vocabulary of the further properties *)


(** A value in which no object has an unrecognized type and every key of
    every dictionary is a byte string. *)
Fixpoint str_keyed (v : value) : Prop :=
  match v with
  | VNone => False
  | VList xs => fold_right (fun x P => str_keyed x /\ P) True xs
  | VDict items =>
      Forall is_str_key (dict_keys items) /\
      fold_right (fun kv P => str_keyed (snd kv) /\ P) True items
  | _ => True
  end.

(** The form of the values that the decoder builds: integers, byte
    strings, lists, and dictionaries with pairwise distinct keys. *)
Fixpoint decoded_form (v : value) : Prop :=
  match v with
  | VInt _ => True
  | VStr _ => True
  | VList xs => fold_right (fun x P => decoded_form x /\ P) True xs
  | VDict items =>
      NoDup (dict_keys items) /\
      fold_right (fun kv P => decoded_form (snd kv) /\ P) True items
  | VBool _ => False
  | VNone => False
  end.

(** The exception that [bdecode_dict] raises when the parsing of its
    items raises [e]: the message of a [BencodeError] is wrapped, any
    other exception is passed on. *)
Definition wrap_exn (e : exn) : exn :=
  match e with
  | BencodeError err => BencodeError (msg_dict_items err)
  | _ => e
  end.

(** A run of opening markers [l] and [d]. *)
Fixpoint openings (s : str) : bool :=
  match s with
  | EmptyString => true
  | String c s' => (Ascii.eqb c "l" || Ascii.eqb c "d") && openings s'
  end.

(** An exception wrapped once for every [d] of a run of openings. *)
Fixpoint nest_exn (opening : str) (e : exn) : exn :=
  match opening with
  | EmptyString => e
  | String c opening' =>
      if Ascii.eqb c "d" then wrap_exn (nest_exn opening' e)
      else nest_exn opening' e
  end.

Example format_d_examples :
  format_d 42 = "42" /\ format_d (-3) = "-3" /\ format_d 0 = "0" /\
  format_d 1000 = "1000" /\ format_d 9 = "9" /\ format_d 10 = "10".
Proof. repeat split; reflexivity. Qed.

Example long_of_str_examples :
  long_of_str "42" = Some 42 /\ long_of_str "-3" = Some (-3) /\
  long_of_str "" = None /\ long_of_str "abc" = None /\
  long_of_str " +7L " = Some 7 /\ int_of_str "7L" = None /\
  long_of_str "007" = Some 7 /\ long_of_str "-" = None.
Proof. repeat split; reflexivity. Qed.

Example partition_examples :
  partition "e" "i42e" = ("i42", "e", "") /\
  partition "e" "i3" = ("i3", "", "") /\
  partition ":" "4:spam" = ("4", ":", "spam") /\
  partition ":" "0:" = ("0", ":", "").
Proof. repeat split; reflexivity. Qed.

Example bencode_examples :
  bencode (VInt 42) = Ok "i42e" /\
  bencode (VStr "spam") = Ok "4:spam" /\
  bencode (VList [VInt 1; VInt 2; VInt 3]) = Ok "li1ei2ei3ee" /\
  bencode (VDict [(KStr "b", VInt 1); (KStr "a", VInt 2)]) = Ok "d1:ai2e1:bi1ee" /\
  bencode (VDict [(KInt 1, VInt 2)]) = Raise KeyError /\
  bencode (VList [VInt 1; VNone]) = Raise (BencodeError msg_unrecognized).
Proof. repeat split; reflexivity. Qed.

Example bdecode_examples :
  bdecode "4:spam" = Ok (VStr "spam", "") /\
  bdecode "l4:spam4:eggse" = Ok (VList [VStr "spam"; VStr "eggs"], "") /\
  bdecode "" = Raise (BencodeError msg_empty) /\
  bdecode "i3" = Raise (BencodeError msg_int_start) /\
  bdecode "9:abc" = Raise (BencodeError msg_str_long) /\
  bdecode "d3:keye" = Raise (BencodeError msg_dict_odd) /\
  bdecode "i42exyz" = Ok (VInt 42, "xyz") /\
  bdecode "i42e" = Raise (BencodeError msg_int_end) /\
  bdecode "0:" = Raise (BencodeError msg_str_colon) /\
  bdecode "iex" = Raise ValueError /\
  bdecode "iabcex" = Raise ValueError /\
  bdecode "dlei1ee" = Raise TypeError /\
  bdecode "di1ei2ee" = Ok (VDict [(KInt 1, VInt 2)], "") /\
  bdecode "d1:ai1e1:ai2ee" = Ok (VDict [(KStr "a", VInt 2)], "") /\
  bdecode "d9:abce" = Raise (BencodeError (msg_dict_items msg_str_long)) /\
  bdecode "lllleeee" = Ok (VList [VList [VList [VList []]]], "").
Proof. repeat split; vm_compute; reflexivity. Qed.

(** ** Strings: suffixes, slices, partition *)

Lemma append_nil_r (s : str) : (s ++ "")%string = s.
Proof. induction s; simpl; congruence. Qed.

Lemma append_assoc (a b c : str) : ((a ++ b) ++ c)%string = (a ++ b ++ c)%string.
Proof. induction a; simpl; congruence. Qed.

Lemma length_append (a b : str) :
  String.length (a ++ b) = (String.length a + String.length b)%nat.
Proof. induction a; simpl; congruence. Qed.

Lemma suffix_refl (s : str) : suffix s s.
Proof. now exists "". Qed.

Lemma suffix_trans (a b c : str) : suffix a b -> suffix b c -> suffix a c.
Proof.
  intros [p ->] [q ->]. exists (q ++ p)%string. now rewrite append_assoc.
Qed.

Lemma suffix_cons (c : ascii) (r s : str) : suffix r s -> suffix r (String c s).
Proof. intros [p ->]. now exists (String c p). Qed.

Lemma proper_suffix_cons (c : ascii) (r s : str) :
  suffix r s -> proper_suffix r (String c s).
Proof. intros [p ->]. exists (String c p). split; [discriminate | reflexivity]. Qed.

Lemma proper_suffix_suffix (r s : str) : proper_suffix r s -> suffix r s.
Proof. intros (p & _ & ->). now exists p. Qed.

Lemma proper_suffix_inv (c : ascii) (r s : str) :
  proper_suffix r (String c s) -> suffix r s.
Proof.
  intros (p & Hp & E). destruct p as [|a p]; [congruence|].
  simpl in E. injection E as _ ->. now exists p.
Qed.

Lemma suffix_proper_trans (a b c : str) :
  suffix a b -> proper_suffix b c -> proper_suffix a c.
Proof.
  intros [p ->] (q & Hq & ->). exists (q ++ p)%string. split.
  - destruct q; [congruence | discriminate].
  - now rewrite append_assoc.
Qed.

Lemma suffix_length (r s : str) :
  suffix r s -> (String.length r <= String.length s)%nat.
Proof. intros [p ->]. rewrite length_append. lia. Qed.

Lemma proper_suffix_length (r s : str) :
  proper_suffix r s -> (String.length r < String.length s)%nat.
Proof.
  intros (p & Hp & ->). rewrite length_append.
  destruct p; [congruence | simpl; lia].
Qed.

Lemma slice_from_suffix (n : nat) (s : str) : suffix (slice_from n s) s.
Proof.
  revert s. induction n as [|n IH]; intros s; simpl.
  - apply suffix_refl.
  - destruct s as [|c s]; [apply suffix_refl | apply suffix_cons, IH].
Qed.

Lemma slice_to_from (n : nat) (s : str) :
  (slice_to n s ++ slice_from n s)%string = s.
Proof.
  revert s. induction n as [|n IH]; intros [|c s]; simpl; try reflexivity.
  now rewrite IH.
Qed.

Lemma slice_to_append (a b : str) : slice_to (String.length a) (a ++ b) = a.
Proof. induction a; simpl; [now destruct b | congruence]. Qed.

Lemma slice_from_append (a b : str) : slice_from (String.length a) (a ++ b) = b.
Proof. induction a; simpl; auto. Qed.

(** [partition] finds the first occurrence of the separator. *)
Lemma partition_found (sep : ascii) (a b : str) :
  occurs sep a = false ->
  partition sep (a ++ String sep b) = (a, String sep "", b).
Proof.
  induction a as [|c a IH]; simpl; intros H.
  - now rewrite Ascii.eqb_refl.
  - apply orb_false_iff in H as [H1 H2]. rewrite H1, (IH H2). reflexivity.
Qed.

Lemma partition_not_found (sep : ascii) (s : str) :
  occurs sep s = false -> partition sep s = (s, "", "").
Proof.
  induction s as [|c s IH]; simpl; intros H; [reflexivity|].
  apply orb_false_iff in H as [H1 H2]. rewrite H1, (IH H2). reflexivity.
Qed.

(** Whatever [partition] returns, the third part is a suffix of the
    input, and a proper one when it is not empty. *)
Lemma partition_after (sep : ascii) (s before found after : str) :
  partition sep s = (before, found, after) ->
  truthy after = true -> proper_suffix after s.
Proof.
  revert before found after. induction s as [|c s IH]; simpl; intros b f a E T.
  - injection E as <- <- <-. discriminate.
  - destruct (Ascii.eqb c sep).
    + injection E as <- <- <-. apply proper_suffix_cons, suffix_refl.
    + destruct (partition sep s) as [[b' f'] a'] eqn:P. injection E as <- <- <-.
      apply proper_suffix_cons, proper_suffix_suffix. eapply IH; eauto.
Qed.

(** ** The decoder consumes its input *)

Lemma bdecode_int_shrinking : shrinking bdecode_int.
Proof.
  intros s v r. unfold bdecode_int.
  destruct (_ || _); [discriminate|].
  destruct (partition "e" s) as [[before found] after] eqn:P.
  destruct (truthy after) eqn:T; simpl; [|discriminate].
  unfold int_factory. destruct (long_of_str _); simpl; [|discriminate].
  intros [= <- <-]. eapply partition_after; eauto.
Qed.

Lemma bdecode_str_shrinking : shrinking bdecode_str.
Proof.
  intros s v r. unfold bdecode_str.
  destruct (partition ":" s) as [[before found] after] eqn:P.
  destruct (truthy after) eqn:T; simpl; [|discriminate].
  destruct (int_of_str before) as [n|]; [|discriminate].
  destruct (n <? 0); [discriminate|].
  destruct (len after <? n); [discriminate|].
  intros [= <- <-]. eapply suffix_proper_trans.
  - apply slice_from_suffix.
  - eapply partition_after; eauto.
Qed.

Section DecoderFacts.
Variable f : str -> outcome (value * str).
Hypothesis f_shrinking : shrinking f.

Lemma bdecode_list_loop_suffix (n : nat) :
  forall leftovers result result' leftovers',
    bdecode_list_loop f n leftovers result = Ok (result', leftovers') ->
    suffix leftovers' leftovers.
Proof.
  induction n as [|n IH]; intros l res res' l'; simpl; [discriminate|].
  destruct l as [|c l]; [intros [= <- <-]; apply suffix_refl|].
  destruct (f (String c l)) as [[v r]| |] eqn:E;
    destruct c as [[] [] [] [] [] [] [] []]; simpl;
    try discriminate; try (intros [= <- <-]; apply suffix_refl);
    intros H; apply IH in H;
    (eapply suffix_trans; [exact H | apply proper_suffix_suffix; eauto]).
Qed.

Lemma bdecode_list_shrinking : shrinking (bdecode_list f).
Proof.
  intros s v r. unfold bdecode_list.
  destruct s as [|c s]; cbn [item0 bind slice_from]; [discriminate|].
  destruct (Ascii.eqb c "l"); cbn [negb]; [|discriminate].
  destruct (bdecode_list_loop f _ s []) as [[res l]| |] eqn:L;
    cbn [bind]; try discriminate.
  destruct l as [|a l]; cbn [truthy negb slice_from]; [discriminate|].
  intros [= <- <-]. apply proper_suffix_cons.
  apply bdecode_list_loop_suffix in L.
  eapply suffix_trans; [|exact L]. apply suffix_cons, suffix_refl.
Qed.

Lemma bdecode_dict_shrinking : shrinking (bdecode_dict f).
Proof.
  intros s v r. unfold bdecode_dict.
  destruct s as [|c s]; cbn [item0 bind slice_from append]; [discriminate|].
  destruct (Ascii.eqb c "d"); cbn [negb]; [|discriminate].
  destruct (bdecode_list f (String "l" s)) as [[items l]|e|] eqn:L;
    [|destruct e; discriminate|discriminate].
  apply bdecode_list_shrinking in L.
  destruct items; try discriminate.
  destruct (negb _); [discriminate|].
  destruct (dict_fill xs []); simpl; try discriminate.
  intros [= <- <-]. apply proper_suffix_cons. eapply proper_suffix_inv; eauto.
Qed.

Lemma bdecode_body_shrinking : shrinking (bdecode_body f).
Proof.
  intros s v r. unfold bdecode_body. destruct s as [|c s]; [discriminate|].
  destruct (Ascii.eqb c "i"); [apply bdecode_int_shrinking|].
  destruct (Ascii.eqb c "l"); [apply bdecode_list_shrinking|].
  destruct (Ascii.eqb c "d"); [apply bdecode_dict_shrinking|].
  destruct (isdigit c); [apply bdecode_str_shrinking | discriminate].
Qed.
End DecoderFacts.

Lemma bdecode_fuel_shrinking (fuel : nat) : shrinking (bdecode_fuel fuel).
Proof.
  induction fuel as [|fuel IH]; simpl.
  - intros s v r; discriminate.
  - now apply bdecode_body_shrinking.
Qed.

Lemma bdecode_shrinking : shrinking bdecode.
Proof. intros s v r. apply bdecode_fuel_shrinking. Qed.

(** ** The recursion budget is never exhausted *)

(** One iteration of the loop of [bdecode_list], with the test on the
    first byte written as a comparison. *)
Lemma bdecode_list_loop_step f (n : nat) (leftovers : str) (result : list value) :
  bdecode_list_loop f (S n) leftovers result =
  match leftovers with
  | EmptyString => Ok (result, leftovers)
  | String c _ =>
      if Ascii.eqb c "e" then Ok (result, leftovers)
      else res <- f leftovers ;;
           bdecode_list_loop f n (snd res) (result ++ [fst res])
  end.
Proof.
  destruct leftovers as [|c l]; [reflexivity|].
  destruct c as [[] [] [] [] [] [] [] []]; reflexivity.
Qed.

Section DecoderBudget.
Variables f g : str -> outcome (value * str).
Hypothesis f_shrinking : shrinking f.

(** The loop only calls the decoder on suffixes of [leftovers]. *)
Lemma bdecode_list_loop_ext (n : nat) :
  forall leftovers result,
    (forall s, (String.length s <= String.length leftovers)%nat -> f s = g s) ->
    bdecode_list_loop f n leftovers result = bdecode_list_loop g n leftovers result.
Proof.
  induction n as [|n IH]; intros l res H; [reflexivity|].
  rewrite !bdecode_list_loop_step.
  destruct l as [|c l]; [reflexivity|].
  destruct (Ascii.eqb c "e"); [reflexivity|].
  rewrite <- H by lia.
  destruct (f (String c l)) as [[v r]| |] eqn:E; cbn [bind fst snd]; try reflexivity.
  apply IH. intros s Hs. apply H.
  apply f_shrinking, proper_suffix_length in E. lia.
Qed.

(** The bound on the iterations is never reached: each iteration
    shortens [leftovers]. *)
Lemma bdecode_list_loop_bound (n m : nat) :
  forall leftovers result,
    (String.length leftovers < n)%nat -> (String.length leftovers < m)%nat ->
    bdecode_list_loop f n leftovers result = bdecode_list_loop f m leftovers result.
Proof.
  revert m. induction n as [|n IH]; intros m l res Hn Hm; [lia|].
  destruct m as [|m]; [lia|].
  rewrite !bdecode_list_loop_step.
  destruct l as [|c l]; [reflexivity|].
  destruct (Ascii.eqb c "e"); [reflexivity|].
  destruct (f (String c l)) as [[v r]| |] eqn:E; cbn [bind fst snd]; try reflexivity.
  apply f_shrinking, proper_suffix_length in E. apply IH; lia.
Qed.

Lemma bdecode_list_loop_fuel (n : nat) :
  forall leftovers result,
    (String.length leftovers < n)%nat ->
    (forall s, (String.length s <= String.length leftovers)%nat -> f s <> OutOfFuel) ->
    bdecode_list_loop f n leftovers result <> OutOfFuel.
Proof.
  induction n as [|n IH]; intros l res Hn H; [lia|].
  rewrite bdecode_list_loop_step.
  destruct l as [|c l]; [discriminate|].
  destruct (Ascii.eqb c "e"); [discriminate|].
  destruct (f (String c l)) as [[v r]| |] eqn:E; cbn [bind fst snd];
    [|discriminate|].
  - apply f_shrinking, proper_suffix_length in E.
    apply IH; [lia|]. intros s Hs. apply H. lia.
  - exfalso. apply (H (String c l)); [lia | exact E].
Qed.

Lemma bdecode_list_ext (s : str) :
  (forall s', (String.length s' < String.length s)%nat -> f s' = g s') ->
  bdecode_list f s = bdecode_list g s.
Proof.
  intros H. unfold bdecode_list.
  destruct s as [|c s]; cbn [item0 bind slice_from]; [reflexivity|].
  rewrite bdecode_list_loop_ext; [reflexivity|].
  intros s' Hs. apply H. simpl. lia.
Qed.

Lemma bdecode_dict_ext (s : str) :
  (forall s', (String.length s' < String.length s)%nat -> f s' = g s') ->
  bdecode_dict f s = bdecode_dict g s.
Proof.
  intros H. unfold bdecode_dict.
  destruct s as [|c s]; cbn [item0 bind slice_from append]; [reflexivity|].
  rewrite bdecode_list_ext; [reflexivity|].
  intros s' Hs. apply H. simpl in *. lia.
Qed.

Lemma bdecode_body_ext (s : str) :
  (forall s', (String.length s' < String.length s)%nat -> f s' = g s') ->
  bdecode_body f s = bdecode_body g s.
Proof.
  intros H. unfold bdecode_body. destruct s as [|c s]; [reflexivity|].
  rewrite bdecode_list_ext, bdecode_dict_ext by exact H. reflexivity.
Qed.

Lemma bdecode_int_fuel (s : str) : bdecode_int s <> OutOfFuel.
Proof.
  unfold bdecode_int. destruct (_ || _); [discriminate|].
  destruct (partition "e" s) as [[before found] after].
  destruct (negb _); [discriminate|].
  unfold int_factory. destruct (long_of_str _); discriminate.
Qed.

Lemma bdecode_str_fuel (s : str) : bdecode_str s <> OutOfFuel.
Proof.
  unfold bdecode_str. destruct (partition ":" s) as [[before found] after].
  destruct (negb _); [discriminate|].
  destruct (int_of_str before) as [n|]; [|discriminate].
  destruct (n <? 0); [discriminate|]. destruct (_ <? n); discriminate.
Qed.

Lemma dict_fill_fuel (items : list value) :
  forall result, dict_fill items result <> OutOfFuel.
Proof.
  induction items as [items IH] using (well_founded_induction
    (Wf_nat.well_founded_ltof _ (@List.length value))).
  intros result. destruct items as [|k [|v rest]]; try discriminate.
  cbn [dict_fill]. destruct (key_of_value k) eqn:K; cbn [bind];
    try discriminate.
  - apply IH. unfold Wf_nat.ltof. simpl. lia.
  - destruct k; discriminate.
Qed.

Lemma bdecode_list_fuel (s : str) :
  (forall s', (String.length s' < String.length s)%nat -> f s' <> OutOfFuel) ->
  bdecode_list f s <> OutOfFuel.
Proof.
  intros H. unfold bdecode_list.
  destruct s as [|c s]; cbn [item0 bind slice_from]; [discriminate|].
  destruct (negb _); [discriminate|].
  destruct (bdecode_list_loop f _ s []) as [[res l]| |] eqn:L; cbn [bind];
    try discriminate.
  - destruct (negb _); discriminate.
  - exfalso. revert L. apply bdecode_list_loop_fuel; [simpl; lia|].
    intros s' Hs. apply H. simpl. lia.
Qed.

Lemma bdecode_dict_fuel (s : str) :
  (forall s', (String.length s' < String.length s)%nat -> f s' <> OutOfFuel) ->
  bdecode_dict f s <> OutOfFuel.
Proof.
  intros H. unfold bdecode_dict.
  destruct s as [|c s]; cbn [item0 bind slice_from append]; [discriminate|].
  destruct (negb _); [discriminate|].
  destruct (bdecode_list f (String "l" s)) as [[items l]|e|] eqn:L.
  - destruct items; try discriminate.
    destruct (negb _); [discriminate|].
    destruct (dict_fill xs []) eqn:D; cbn [bind]; try discriminate.
    exfalso. revert D. apply dict_fill_fuel.
  - destruct e; discriminate.
  - exfalso. revert L. apply bdecode_list_fuel.
    intros s' Hs. apply H. simpl in *. lia.
Qed.

Lemma bdecode_body_fuel (s : str) :
  (forall s', (String.length s' < String.length s)%nat -> f s' <> OutOfFuel) ->
  bdecode_body f s <> OutOfFuel.
Proof.
  intros H. unfold bdecode_body. destruct s as [|c s]; [discriminate|].
  destruct (Ascii.eqb c "i"); [apply bdecode_int_fuel|].
  destruct (Ascii.eqb c "l"); [now apply bdecode_list_fuel|].
  destruct (Ascii.eqb c "d"); [now apply bdecode_dict_fuel|].
  destruct (isdigit c); [apply bdecode_str_fuel | discriminate].
Qed.
End DecoderBudget.

(** Any budget above the length of the input gives the same result. *)
Lemma bdecode_fuel_irrelevant (n : nat) :
  forall m s, (String.length s < n)%nat -> (String.length s < m)%nat ->
              bdecode_fuel n s = bdecode_fuel m s.
Proof.
  induction n as [|n IH]; intros m s Hn Hm; [lia|].
  destruct m as [|m]; [lia|]. cbn [bdecode_fuel].
  apply bdecode_body_ext; [apply bdecode_fuel_shrinking|].
  intros s' Hs. apply IH; lia.
Qed.

Lemma bdecode_fuel_enough (n : nat) :
  forall s, (String.length s < n)%nat -> bdecode_fuel n s <> OutOfFuel.
Proof.
  induction n as [|n IH]; intros s Hn; [lia|]. cbn [bdecode_fuel].
  apply bdecode_body_fuel; [apply bdecode_fuel_shrinking|].
  intros s' Hs. apply IH. lia.
Qed.

(** [bdecode] satisfies the recursive equation of the source. *)
Lemma bdecode_unfold (s : str) : bdecode s = bdecode_body bdecode s.
Proof.
  unfold bdecode at 1. cbn [bdecode_fuel].
  apply bdecode_body_ext; [apply bdecode_fuel_shrinking|].
  intros s' Hs. unfold bdecode. apply bdecode_fuel_irrelevant; lia.
Qed.

(** ** Dispatch and totality *)

(** C8.  Decoding the empty buffer raises the "empty" error; a first byte
    other than [i], [l], [d] or a digit raises the "no type indicator"
    error; otherwise the call is the call of the integer, list,
    dictionary or string parser on the same buffer, the nested values
    being decoded by [bdecode] itself. *)
Theorem bdecode_dispatch :
  bdecode "" = Raise (BencodeError msg_empty) /\
  (forall (c : ascii) (s : str),
      c <> "i"%char -> c <> "l"%char -> c <> "d"%char -> isdigit c = false ->
      bdecode (String c s) = Raise (BencodeError msg_no_type)) /\
  (forall s : str, bdecode (String "i" s) = bdecode_int (String "i" s)) /\
  (forall s : str, bdecode (String "l" s) = bdecode_list bdecode (String "l" s)) /\
  (forall s : str, bdecode (String "d" s) = bdecode_dict bdecode (String "d" s)) /\
  (forall (c : ascii) (s : str),
      isdigit c = true -> bdecode (String c s) = bdecode_str (String c s)).
Proof.
  split; [reflexivity|].
  split.
  { intros c s Hi Hl Hd Hc. rewrite bdecode_unfold. cbn [bdecode_body].
    apply Ascii.eqb_neq in Hi, Hl, Hd. now rewrite Hi, Hl, Hd, Hc. }
  repeat split; intros; rewrite bdecode_unfold; try reflexivity.
  cbn [bdecode_body].
  destruct c as [[] [] [] [] [] [] [] []]; try discriminate; reflexivity.
Qed.

Lemma bdecode_dispatch_witness :
  bdecode "x123" = Raise (BencodeError msg_no_type) /\
  bdecode "4:spam" = bdecode_str "4:spam".
Proof.
  destruct bdecode_dispatch as (_ & Hother & _ & _ & _ & Hstr).
  split.
  - apply Hother; try discriminate. reflexivity.
  - apply Hstr. reflexivity.
Defined.

(** C10.  [bdecode] terminates on every buffer: the call either raises,
    or returns a value and a remainder that is a proper suffix of the
    buffer.  The recursion budget of the model is never exhausted and
    any larger budget gives the same outcome, because the recursive
    calls are made on strictly shorter buffers only: the outcome on [s]
    is that of the body of [bdecode] run with any decoder that agrees
    with [bdecode] on the buffers shorter than [s]. *)
Theorem bdecode_total (s : str) :
  ((exists v r, bdecode s = Ok (v, r) /\ proper_suffix r s) \/
   (exists e, bdecode s = Raise e)) /\
  (forall fuel : nat,
      (String.length s < fuel)%nat -> bdecode_fuel fuel s = bdecode s) /\
  (forall g : str -> outcome (value * str),
      (forall s', (String.length s' < String.length s)%nat -> g s' = bdecode s') ->
      bdecode_body g s = bdecode s).
Proof.
  split; [|split].
  - destruct (bdecode s) as [[v r]|e|] eqn:E.
    + left. exists v, r. split; [reflexivity|]. now apply bdecode_shrinking in E.
    + right. now exists e.
    + exfalso. revert E. apply bdecode_fuel_enough. lia.
  - intros fuel H. apply bdecode_fuel_irrelevant; [exact H | lia].
  - intros g H. rewrite (bdecode_unfold s). symmetry.
    apply bdecode_body_ext; [apply bdecode_shrinking|].
    intros s' Hs. symmetry. now apply H.
Qed.

Lemma bdecode_total_witness :
  bdecode_fuel 100 "l4:spami7ee" = bdecode "l4:spami7ee" /\
  bdecode_body (bdecode_fuel 11) "l4:spami7ee" = bdecode "l4:spami7ee".
Proof.
  destruct (bdecode_total "l4:spami7ee") as (_ & Hfuel & Hbody). split.
  - apply Hfuel. simpl. lia.
  - apply Hbody. intros s' Hs.
    destruct (bdecode_total s') as (_ & Hfuel' & _). apply Hfuel'.
    simpl in Hs. lia.
Defined.

(** ** Running the loop of [bdecode_list] *)

Section LoopRun.
Variable f : str -> outcome (value * str).
Hypothesis f_shrinking : shrinking f.

(** The loop stops at the end of the buffer and at a byte [e]. *)
Lemma bdecode_list_loop_stop (n : nat) (leftovers : str) (result : list value) :
  leftovers = "" \/ (exists l, leftovers = String "e" l) ->
  bdecode_list_loop f (S n) leftovers result = Ok (result, leftovers).
Proof. intros [->|[l ->]]; reflexivity. Qed.

(** The loop decodes one element and goes on with what is left. *)
Lemma bdecode_list_loop_next (n : nat) (c : ascii) (l : str) (v : value)
      (r : str) (result : list value) :
  c <> "e"%char ->
  f (String c l) = Ok (v, r) ->
  (String.length (String c l) < n)%nat ->
  bdecode_list_loop f n (String c l) result =
  bdecode_list_loop f (S (String.length r)) r (result ++ [v]).
Proof.
  intros Hc E Hn. destruct n as [|n]; [lia|].
  rewrite bdecode_list_loop_step. apply Ascii.eqb_neq in Hc. rewrite Hc, E.
  cbn [bind fst snd]. apply bdecode_list_loop_bound; [exact f_shrinking| |lia].
  apply f_shrinking, proper_suffix_length in E. lia.
Qed.
End LoopRun.

(** ** Nesting *)






(** ** Decimal numerals *)

Lemma digit_char_spec (d : Z) :
  0 <= d < 10 -> isdigit (digit_char d) = true /\ digit_val (digit_char d) = d.
Proof.
  intros H.
  assert (d = 0 \/ d = 1 \/ d = 2 \/ d = 3 \/ d = 4 \/ d = 5 \/ d = 6 \/ d = 7
          \/ d = 8 \/ d = 9) as C by lia.
  repeat (destruct C as [->|C]; [split; reflexivity|]). subst. split; reflexivity.
Qed.

Lemma digit_char_zero (d : Z) : 0 <= d < 10 -> digit_char d = "0"%char -> d = 0.
Proof.
  intros H E. apply (f_equal digit_val) in E.
  rewrite (proj2 (digit_char_spec d H)) in E. exact E.
Qed.

Lemma isdigit_val (c : ascii) : isdigit c = true -> 0 <= digit_val c < 10.
Proof.
  unfold isdigit, digit_val. intros H. apply andb_true_iff in H as [H1 H2].
  apply N.leb_le in H1, H2. lia.
Qed.

Lemma digits_value_append (a b : str) (acc : Z) :
  digits_value acc (a ++ b) = digits_value (digits_value acc a) b.
Proof. revert acc. induction a as [|c a IH]; intros acc; simpl; auto. Qed.

Lemma all_digits_append (a b : str) :
  all_digits (a ++ b) = all_digits a && all_digits b.
Proof. induction a as [|c a IH]; simpl; [reflexivity|]. now rewrite IH, andb_assoc. Qed.

Lemma digits_value_nonneg (ds : str) :
  forall acc, 0 <= acc -> all_digits ds = true -> 0 <= digits_value acc ds.
Proof.
  induction ds as [|c ds IH]; intros acc Hacc H;
    cbn [digits_value all_digits] in *; [exact Hacc|].
  apply andb_true_iff in H as [Hc Hds]. apply IH; [|exact Hds].
  apply isdigit_val in Hc. lia.
Qed.

Lemma digits_of_step (fuel : nat) (n : Z) (acc : str) :
  digits_of (S fuel) n acc =
  if n <? 10 then String (digit_char (n mod 10)) acc
  else digits_of fuel (n / 10) (String (digit_char (n mod 10)) acc).
Proof. reflexivity. Qed.

(** [digits_of] writes the canonical numeral in front of [acc], given a
    budget of at least the number of binary digits. *)
Lemma digits_of_spec (fuel : nat) :
  forall (n : Z) (acc : str),
    0 <= n < 2 ^ Z.of_nat (S fuel) ->
    exists ds, digits_of (S fuel) n acc = (ds ++ acc)%string /\ canonical_digits n ds.
Proof.
  induction fuel as [|fuel IH]; intros n acc Hn.
  - change (2 ^ Z.of_nat 1) with 2 in Hn.
    exists (String (digit_char n) ""). rewrite digits_of_step.
    replace (n <? 10) with true by (symmetry; apply Z.ltb_lt; lia).
    rewrite Z.mod_small by lia.
    destruct (digit_char_spec n) as [D1 D2]; [lia|].
    split; [reflexivity|]. repeat split.
    + discriminate.
    + simpl. now rewrite D1.
    + simpl. lia.
    + now intros ds' [= _ <-].
  - rewrite digits_of_step. destruct (n <? 10) eqn:Lt.
    + apply Z.ltb_lt in Lt. exists (String (digit_char n) "").
      rewrite Z.mod_small by lia.
      destruct (digit_char_spec n) as [D1 D2]; [lia|].
      split; [reflexivity|]. repeat split.
      * discriminate.
      * simpl. now rewrite D1.
      * simpl. lia.
      * now intros ds' [= _ <-].
    + apply Z.ltb_ge in Lt.
      assert (0 <= n / 10 < 2 ^ Z.of_nat (S fuel)) as Hq.
      { rewrite (Nat2Z.inj_succ (S fuel)), Z.pow_succ_r in Hn by lia.
        split; [apply Z.div_pos; lia|].
        apply Z.div_lt_upper_bound; lia. }
      destruct (IH (n / 10) (String (digit_char (n mod 10)) acc) Hq)
        as (ds & E & Hne & Hall & Hval & Hlead).
      destruct (digit_char_spec (n mod 10)) as [D1 D2];
        [apply Z.mod_pos_bound; lia|].
      exists (ds ++ String (digit_char (n mod 10)) "")%string. split.
      { rewrite E, append_assoc. reflexivity. }
      repeat split.
      * destruct ds; [congruence | discriminate].
      * rewrite all_digits_append, Hall. simpl. now rewrite D1.
      * rewrite digits_value_append, Hval. cbn [digits_value]. rewrite D2.
        pose proof (Z.div_mod n 10 ltac:(lia)). lia.
      * intros ds' Hd. destruct ds as [|c ds]; [congruence|].
        simpl in Hd. injection Hd as -> Hd.
        specialize (Hlead ds eq_refl). subst ds. simpl in Hval.
        change (digit_val "0") with 0 in Hval.
        assert (1 <= n / 10) by (apply Z.div_le_lower_bound; lia). lia.
Qed.

(** [format_d] writes a minus sign for a negative number, and the
    canonical numeral of the absolute value. *)
Lemma format_d_spec (n : Z) :
  exists ds, canonical_digits (Z.abs n) ds /\
             format_d n = ((if (n <? 0)%Z then "-" else "") ++ ds)%string.
Proof.
  unfold format_d.
  destruct (digits_of_spec (Z.to_nat (Z.log2 (Z.abs n))) (Z.abs n) "")
    as (ds & E & C).
  - split; [lia|]. rewrite Nat2Z.inj_succ, Z2Nat.id by apply Z.log2_nonneg.
    destruct (Z.eq_dec (Z.abs n) 0) as [->|Hz]; [reflexivity|].
    apply Z.log2_spec. lia.
  - exists ds. split; [exact C|]. rewrite E, append_nil_r.
    destruct (n <? 0); reflexivity.
Qed.

(** A canonical numeral is determined by the number. *)
Lemma digits_value_bounds (ds : str) :
  forall acc, all_digits ds = true ->
    acc * 10 ^ Z.of_nat (String.length ds) <= digits_value acc ds
    < (acc + 1) * 10 ^ Z.of_nat (String.length ds).
Proof.
  induction ds as [|c ds IH]; intros acc H.
  - simpl. lia.
  - cbn [all_digits] in H. apply andb_true_iff in H as [Hc Hds].
    apply isdigit_val in Hc. cbn [digits_value String.length].
    rewrite Nat2Z.inj_succ, Z.pow_succ_r by lia.
    specialize (IH (10 * acc + digit_val c) Hds).
    assert (0 < 10 ^ Z.of_nat (String.length ds)) by (apply Z.pow_pos_nonneg; lia).
    nia.
Qed.

Lemma digit_val_inj (c d : ascii) : digit_val c = digit_val d -> c = d.
Proof.
  unfold digit_val. intros H.
  rewrite <- (ascii_N_embedding c), <- (ascii_N_embedding d).
  f_equal. lia.
Qed.

Lemma digits_value_inj (a : str) :
  forall (b : str) (acc : Z),
    all_digits a = true -> all_digits b = true ->
    String.length a = String.length b ->
    digits_value acc a = digits_value acc b -> a = b.
Proof.
  induction a as [|c a IH]; intros [|d b] acc Ha Hb L E;
    try discriminate; [reflexivity|].
  cbn [all_digits] in Ha, Hb.
  apply andb_true_iff in Ha as [Hc Ha], Hb as [Hd Hb].
  injection L as L. cbn [digits_value] in E.
  pose proof (digits_value_bounds a (10 * acc + digit_val c) Ha) as Ba.
  pose proof (digits_value_bounds b (10 * acc + digit_val d) Hb) as Bb.
  rewrite E, L in Ba.
  assert (0 < 10 ^ Z.of_nat (String.length b)) by (apply Z.pow_pos_nonneg; lia).
  assert (digit_val c = digit_val d) as V by nia.
  apply digit_val_inj in V. subst d. f_equal. eapply IH; eauto.
Qed.

(** A canonical numeral of [l] digits denotes a number below [10^l],
    and not below [10^(l-1)] when [l > 1]. *)
Lemma canonical_digits_bounds (n : Z) (ds : str) :
  canonical_digits n ds ->
  n < 10 ^ Z.of_nat (String.length ds) /\
  ((1 < String.length ds)%nat -> 10 ^ (Z.of_nat (String.length ds) - 1) <= n).
Proof.
  intros (Hne & Hall & Hval & Hlead). subst n. split.
  - pose proof (digits_value_bounds ds 0 Hall). lia.
  - destruct ds as [|c ds]; [congruence|]. cbn [String.length]. intros L.
    cbn [all_digits] in Hall. apply andb_true_iff in Hall as [Hc Hds].
    cbn [digits_value]. pose proof (digits_value_bounds ds (10 * 0 + digit_val c) Hds) as B.
    replace (Z.of_nat (S (String.length ds)) - 1) with (Z.of_nat (String.length ds)) by lia.
    assert (digit_val c <> 0) as Hz.
    { intros Z0. assert (c = "0"%char) as -> by (apply digit_val_inj; exact Z0).
      specialize (Hlead ds eq_refl). subst ds. simpl in L. lia. }
    apply isdigit_val in Hc.
    assert (0 < 10 ^ Z.of_nat (String.length ds)) by (apply Z.pow_pos_nonneg; lia).
    nia.
Qed.

Lemma canonical_digits_unique (n : Z) (a b : str) :
  canonical_digits n a -> canonical_digits n b -> a = b.
Proof.
  intros Ha Hb.
  assert (forall x y, canonical_digits n x -> canonical_digits n y ->
                      (String.length x <= String.length y)%nat) as Le.
  { intros x y Hx Hy.
    destruct (le_lt_dec (String.length x) (String.length y)) as [|Lt]; [assumption|].
    exfalso. destruct (canonical_digits_bounds n x Hx) as [_ Lo].
    destruct (canonical_digits_bounds n y Hy) as [Hi _].
    assert (1 < String.length x)%nat as L1.
    { destruct Hy as (Hne & _). destruct y; [congruence|]. simpl in Lt. lia. }
    specialize (Lo L1).
    assert (10 ^ Z.of_nat (String.length y) <= 10 ^ (Z.of_nat (String.length x) - 1))
      by (apply Z.pow_le_mono_r; lia).
    lia. }
  pose proof (Le a b Ha Hb). pose proof (Le b a Hb Ha).
  destruct Ha as (_ & Ha & Va & _), Hb as (_ & Hb & Vb & _).
  apply (digits_value_inj a b 0); try assumption; [lia | congruence].
Qed.

(** ** The integer encoder *)

(** C7.  The encoding of an integer is [i], a minus sign exactly when
    the integer is negative, the canonical decimal numeral of its
    absolute value (no leading zero; [0] for zero, never [-0]), and [e];
    [True] and [False] are encoded as [1] and [0]. *)
Theorem bencode_int_canonical (n : Z) :
  (exists ds : str,
      canonical_digits (Z.abs n) ds /\
      (forall ds', canonical_digits (Z.abs n) ds' -> ds' = ds) /\
      bencode (VInt n) =
      Ok ("i" ++ (if (n <? 0)%Z then "-" else "") ++ ds ++ "e")%string) /\
  (forall b : bool, bencode (VBool b) = bencode (VInt (if b then 1 else 0))) /\
  bencode (VInt 0) = Ok "i0e" /\
  bencode (VInt 42) = Ok "i42e" /\
  bencode (VInt (-3)) = Ok "i-3e" /\
  bencode (VBool true) = Ok "i1e".
Proof.
  split; [|repeat split; reflexivity].
  destruct (format_d_spec n) as (ds & C & E). exists ds.
  split; [exact C|]. split.
  - intros ds' C'. eapply canonical_digits_unique; eauto.
  - cbn [bencode]. unfold bencode_int. rewrite E, append_assoc. reflexivity.
Qed.

(** ** Literals accepted by [int] and [long] *)

Lemma isdigit_not_space (c : ascii) : isdigit c = true -> isspace c = false.
Proof.
  unfold isdigit, isspace. intros H. apply andb_true_iff in H as [H1 H2].
  apply N.leb_le in H1, H2. apply orb_false_iff. split.
  - apply andb_false_iff. right. apply N.leb_gt. lia.
  - apply N.eqb_neq. lia.
Qed.

Lemma isdigit_eqb (c d : ascii) :
  isdigit c = true -> isdigit d = false -> Ascii.eqb c d = false.
Proof. intros Hc Hd. apply Ascii.eqb_neq. intros ->. congruence. Qed.

Lemma occurs_append (c : ascii) (a b : str) :
  occurs c (a ++ b) = occurs c a || occurs c b.
Proof. induction a as [|x a IH]; simpl; [reflexivity|]. now rewrite IH, orb_assoc. Qed.

Lemma occurs_digits (c : ascii) (ds : str) :
  isdigit c = false -> all_digits ds = true -> occurs c ds = false.
Proof.
  intros Hc. induction ds as [|d ds IH]; simpl; intros H; [reflexivity|].
  apply andb_true_iff in H as [Hd Hds]. now rewrite (isdigit_eqb d c Hd Hc), IH.
Qed.

Lemma span_digits_all (ds : str) : all_digits ds = true -> span_digits ds = (ds, "").
Proof.
  induction ds as [|c ds IH]; simpl; intros H; [reflexivity|].
  apply andb_true_iff in H as [Hc Hds]. now rewrite Hc, IH.
Qed.

Lemma span_digits_spec (s ds rest : str) :
  span_digits s = (ds, rest) -> all_digits ds = true /\ s = (ds ++ rest)%string.
Proof.
  revert ds rest. induction s as [|c s IH]; simpl; intros ds rest E.
  - injection E as <- <-. now split.
  - destruct (isdigit c) eqn:Hc.
    + destruct (span_digits s) as [ds' rest'] eqn:S. injection E as <- <-.
      destruct (IH _ _ eq_refl) as [H1 H2]. simpl. rewrite Hc, H1. now subst s.
    + injection E as <- <-. now split.
Qed.

(** A digit is not taken for a sign. *)
Lemma sign_of_digit (c : ascii) (r : str) :
  isdigit c = true ->
  match String c r with
  | String "-" r' => (true, r')
  | String "+" r' => (false, r')
  | _ => (false, String c r)
  end = (false, String c r).
Proof.
  destruct c as [[] [] [] [] [] [] [] []]; intros H;
    try reflexivity; vm_compute in H; discriminate.
Qed.

Lemma parse_literal_digits (long_suffix negative : bool) (ds : str) :
  all_digits ds = true -> ds <> "" ->
  parse_literal long_suffix (sign_str negative ++ ds) =
  Some (signed negative (digits_value 0 ds)).
Proof.
  intros Hall Hne. destruct ds as [|c ds]; [congruence|].
  pose proof Hall as Hall'. cbn [all_digits] in Hall'.
  apply andb_true_iff in Hall' as [Hc _].
  pose proof (isdigit_not_space c Hc) as Hs.
  unfold parse_literal. destruct negative; cbn [sign_str append skip_space isspace].
  - change (isspace "-") with false. cbv iota. cbn [skip_space]. rewrite Hs.
    rewrite span_digits_all by exact Hall. reflexivity.
  - cbn [skip_space]. rewrite Hs, sign_of_digit by exact Hc.
    cbn [skip_space]. rewrite Hs.
    rewrite span_digits_all by exact Hall. reflexivity.
Qed.

(** A literal that starts with a digit denotes a non-negative number. *)
Lemma parse_literal_nonneg (long_suffix : bool) (c : ascii) (s : str) (n : Z) :
  isdigit c = true -> parse_literal long_suffix (String c s) = Some n -> 0 <= n.
Proof.
  intros Hc. pose proof (isdigit_not_space c Hc) as Hs.
  unfold parse_literal. cbn [skip_space]. rewrite Hs, sign_of_digit by exact Hc.
  cbn [skip_space]. rewrite Hs.
  destruct (span_digits (String c s)) as [ds rest] eqn:S.
  apply span_digits_spec in S as [Hall _].
  destruct (truthy ds); [|discriminate].
  destruct (truthy (skip_space _)); [discriminate|].
  intros [= <-]. apply digits_value_nonneg; [lia | exact Hall].
Qed.

(** ** The integer parser *)

Lemma len_cons (c : ascii) (s : str) : len (String c s) = 1 + len s.
Proof. unfold len. cbn [String.length]. lia. Qed.

Lemma len_append (a b : str) : len (a ++ b) = len a + len b.
Proof. unfold len. rewrite length_append. lia. Qed.

Lemma len_nonneg (s : str) : 0 <= len s.
Proof. unfold len. lia. Qed.

Lemma len_pos (s : str) : s <> "" -> 0 < len s.
Proof. destruct s; [congruence|]. rewrite len_cons. pose proof (len_nonneg s). lia. Qed.

Lemma truthy_true (s : str) : s <> "" -> truthy s = true.
Proof. destruct s; [congruence | reflexivity]. Qed.

(** A well-formed integer is decoded when at least one byte follows its
    terminator, and rejected when nothing does. *)
Lemma bdecode_int_digits (negative : bool) (ds rest : str) :
  all_digits ds = true -> ds <> "" ->
  bdecode_int ("i" ++ sign_str negative ++ ds ++ "e" ++ rest) =
  if truthy rest then Ok (VInt (signed negative (digits_value 0 ds)), rest)
  else Raise (BencodeError msg_int_end).
Proof.
  intros Hall Hne. unfold bdecode_int. cbn [append].
  replace (len _ <=? 2) with false.
  2:{ symmetry. apply Z.leb_gt. rewrite len_cons, !len_append, len_cons.
      pose proof (len_pos ds Hne). pose proof (len_nonneg (sign_str negative)).
      pose proof (len_nonneg rest). lia. }
  cbn [orb negb].
  rewrite <- append_assoc.
  change (String "i" ((sign_str negative ++ ds) ++ String "e" rest))
    with ((String "i" (sign_str negative ++ ds)) ++ String "e" rest)%string.
  rewrite partition_found.
  2:{ cbn [occurs]. change (Ascii.eqb "i" "e") with false. cbn [orb].
      rewrite occurs_append, (occurs_digits "e" ds) by (reflexivity || exact Hall).
      destruct negative; reflexivity. }
  destruct rest as [|a rest]; cbn [truthy negb]; [reflexivity|].
  cbn [slice_from]. unfold int_factory, long_of_str.
  rewrite parse_literal_digits by assumption. reflexivity.
Qed.

(** An [i] that [e] never follows is rejected. *)
Lemma bdecode_int_unterminated (s : str) :
  occurs "e" s = false ->
  bdecode_int (String "i" s) =
  Raise (BencodeError (if len (String "i" s) <=? 2 then msg_int_start else msg_int_end)).
Proof.
  intros H. unfold bdecode_int. destruct (len _ <=? 2); [reflexivity|].
  cbn [orb negb]. rewrite partition_not_found; [reflexivity|].
  cbn [occurs]. now rewrite H.
Qed.

(** An empty run of digits makes [long] raise [ValueError], which the
    parser does not catch. *)
Lemma bdecode_int_no_digits (rest : str) :
  rest <> "" -> bdecode_int ("ie" ++ rest) = Raise ValueError.
Proof.
  intros H. destruct rest as [|a rest]; [congruence|]. unfold bdecode_int.
  replace (len _ <=? 2) with false.
  2:{ symmetry. apply Z.leb_gt. cbn [append]. rewrite !len_cons.
      pose proof (len_nonneg rest). lia. }
  reflexivity.
Qed.

(** C2 (what the code does).  A well-formed integer [i], optional [-],
    digits, [e] is decoded to its value and the remainder when the
    remainder is not empty, and is rejected ("does not terminate") when
    nothing follows the [e]; a buffer without [e] is rejected; an empty
    digit run followed by [e] and more bytes raises [ValueError]. *)
Theorem bdecode_int_cases :
  (forall (negative : bool) (ds : str),
      all_digits ds = true -> ds <> "" ->
      bdecode ("i" ++ sign_str negative ++ ds ++ "e") =
      Raise (BencodeError msg_int_end)) /\
  (forall (negative : bool) (ds rest : str),
      all_digits ds = true -> ds <> "" -> rest <> "" ->
      bdecode ("i" ++ sign_str negative ++ ds ++ "e" ++ rest) =
      Ok (VInt (signed negative (digits_value 0 ds)), rest)) /\
  (forall s : str,
      occurs "e" s = false ->
      exists msg, bdecode (String "i" s) = Raise (BencodeError msg)) /\
  (forall rest : str, rest <> "" -> bdecode ("ie" ++ rest) = Raise ValueError) /\
  bdecode "i3" = Raise (BencodeError msg_int_start) /\
  bdecode "i42e" = Raise (BencodeError msg_int_end).
Proof.
  repeat split; try reflexivity.
  - intros negative ds Hall Hne. cbn [append]. rewrite bdecode_unfold.
    cbn [bdecode_body]. change (Ascii.eqb "i" "i") with true. cbv iota.
    apply (bdecode_int_digits negative ds "" Hall Hne).
  - intros negative ds rest Hall Hne Hr. cbn [append]. rewrite bdecode_unfold.
    cbn [bdecode_body]. change (Ascii.eqb "i" "i") with true. cbv iota.
    pose proof (bdecode_int_digits negative ds rest Hall Hne) as E.
    rewrite (truthy_true rest Hr) in E. exact E.
  - intros s H. rewrite bdecode_unfold. cbn [bdecode_body].
    change (Ascii.eqb "i" "i") with true. cbv iota.
    rewrite bdecode_int_unterminated by exact H. eauto.
  - intros rest Hr. cbn [append]. rewrite bdecode_unfold. cbn [bdecode_body].
    change (Ascii.eqb "i" "i") with true. cbv iota.
    now apply bdecode_int_no_digits.
Qed.

Lemma bdecode_int_cases_witness :
  bdecode "i-7e" = Raise (BencodeError msg_int_end) /\
  bdecode "i-7exyz" = Ok (VInt (-7), "xyz") /\
  bdecode "iexyz" = Raise ValueError.
Proof.
  destruct bdecode_int_cases as (Hend & Hok & _ & Hval & _).
  split; [|split].
  - apply (Hend true "7"); [reflexivity | discriminate].
  - apply (Hok true "7" "xyz"); [reflexivity | discriminate | discriminate].
  - apply (Hval "xyz"). discriminate.
Defined.

(** ** The exceptions of the decoder *)

Lemma dict_fill_exn (items : list value) :
  forall (result : dict) (e : exn), dict_fill items result = Raise e -> e = TypeError.
Proof.
  induction items as [items IH] using (well_founded_induction
    (Wf_nat.well_founded_ltof _ (@List.length value))).
  intros result e. destruct items as [|k [|v rest]]; try discriminate.
  cbn [dict_fill]. destruct (key_of_value k) eqn:K; cbn [bind].
  - apply IH. unfold Wf_nat.ltof. simpl. lia.
  - destruct k; try discriminate; injection K as <-; congruence.
  - discriminate.
Qed.

Section DecoderExceptions.
Variable f : str -> outcome (value * str).
Hypothesis f_exn : forall s e, f s = Raise e -> bdecode_exn e.

Lemma bdecode_list_loop_exn (n : nat) :
  forall leftovers result e,
    bdecode_list_loop f n leftovers result = Raise e -> bdecode_exn e.
Proof.
  induction n as [|n IH]; intros l res e; [discriminate|].
  rewrite bdecode_list_loop_step. destruct l as [|c l]; [discriminate|].
  destruct (Ascii.eqb c "e"); [discriminate|].
  destruct (f (String c l)) as [[v r]|e'|] eqn:E; cbn [bind fst snd].
  - apply IH.
  - intros [= <-]. eapply f_exn; eauto.
  - discriminate.
Qed.

Lemma bdecode_list_exn (c : ascii) (s : str) (e : exn) :
  bdecode_list f (String c s) = Raise e -> bdecode_exn e.
Proof.
  unfold bdecode_list. cbn [item0 bind slice_from].
  destruct (negb _); [intros [= <-]; exact I|].
  destruct (bdecode_list_loop f _ s []) as [[res l]|e'|] eqn:L; cbn [bind].
  - destruct (negb _); [intros [= <-]; exact I | discriminate].
  - intros [= <-]. eapply bdecode_list_loop_exn; eauto.
  - discriminate.
Qed.

Lemma bdecode_dict_exn (c : ascii) (s : str) (e : exn) :
  bdecode_dict f (String c s) = Raise e -> bdecode_exn e.
Proof.
  unfold bdecode_dict. cbn [item0 bind slice_from append].
  destruct (negb _); [intros [= <-]; exact I|].
  destruct (bdecode_list f (String "l" s)) as [[items l]|e'|] eqn:L.
  - destruct items; try (intros [= <-]; exact I).
    destruct (negb _); [intros [= <-]; exact I|].
    destruct (dict_fill xs []) eqn:D; cbn [bind]; try discriminate.
    intros [= <-]. apply dict_fill_exn in D. now subst.
  - apply bdecode_list_exn in L.
    destruct e'; intros [= <-]; try exact I; exact L.
  - discriminate.
Qed.

Lemma bdecode_body_exn (s : str) (e : exn) :
  bdecode_body f s = Raise e -> bdecode_exn e.
Proof.
  unfold bdecode_body. destruct s as [|c s]; [intros [= <-]; exact I|].
  destruct (Ascii.eqb c "i").
  { unfold bdecode_int. destruct (_ || _); [intros [= <-]; exact I|].
    destruct (partition "e" _) as [[before found] after].
    destruct (negb _); [intros [= <-]; exact I|].
    unfold int_factory. destruct (long_of_str _); cbn [bind];
      [discriminate | intros [= <-]; exact I]. }
  destruct (Ascii.eqb c "l"); [apply bdecode_list_exn|].
  destruct (Ascii.eqb c "d"); [apply bdecode_dict_exn|].
  destruct (isdigit c); [|intros [= <-]; exact I].
  unfold bdecode_str. destruct (partition ":" _) as [[before found] after].
  destruct (negb _); [intros [= <-]; exact I|].
  destruct (int_of_str before) as [n|]; [|intros [= <-]; exact I].
  destruct (n <? 0); [intros [= <-]; exact I|].
  destruct (_ <? n); [intros [= <-]; exact I | discriminate].
Qed.
End DecoderExceptions.

Lemma bdecode_fuel_exn (fuel : nat) :
  forall s e, bdecode_fuel fuel s = Raise e -> bdecode_exn e.
Proof.
  induction fuel as [|fuel IH]; intros s e; [discriminate|].
  cbn [bdecode_fuel]. now apply bdecode_body_exn.
Qed.

(** C3 (what the code does).  The decoder raises [BencodeError] on the
    malformed inputs that it checks for, but [ValueError] escapes from
    the integer parser on a malformed numeral, and [TypeError] from the
    dictionary parser on a list or dictionary in key position; no other
    exception is raised. *)
Theorem bdecode_exceptions :
  bdecode "iabcex" = Raise ValueError /\
  bdecode "iex" = Raise ValueError /\
  bdecode "dlei1ee" = Raise TypeError /\
  bdecode "iabce" = Raise (BencodeError msg_int_end) /\
  (forall (s : str) (e : exn), bdecode s = Raise e -> bdecode_exn e).
Proof.
  repeat split; try reflexivity.
  intros s e. apply bdecode_fuel_exn.
Qed.

Lemma bdecode_exceptions_witness : bdecode_exn ValueError.
Proof.
  destruct bdecode_exceptions as (_ & _ & _ & _ & H).
  apply (H "iabcex" ValueError). reflexivity.
Defined.

(** ** The string parser *)

Lemma bdecode_str_dispatch (c : ascii) (s : str) :
  isdigit c = true -> bdecode (String c s) = bdecode_str (String c s).
Proof.
  intros Hc. rewrite bdecode_unfold. cbn [bdecode_body].
  rewrite !(isdigit_eqb c) by (exact Hc || reflexivity). now rewrite Hc.
Qed.

(** C4 (what the code does).  On a buffer that starts with a digit the
    decoder splits at the first [:].  When nothing follows the [:] (as in
    [0:]) or there is no [:], it raises the "does not contain ':'" error.
    Otherwise, a prefix that is no literal raises the "length not an
    integer" error; a length [n] larger than the number of bytes that
    follow raises the "too long" error; else the first [n] bytes are the
    value and the rest is the remainder. *)
Theorem bdecode_str_cases (c : ascii) (s : str) (Hc : isdigit c = true) :
  (forall prefix : str,
      String c s = (prefix ++ ":")%string -> occurs ":" prefix = false ->
      bdecode (String c s) = Raise (BencodeError msg_str_colon)) /\
  (occurs ":" (String c s) = false ->
   bdecode (String c s) = Raise (BencodeError msg_str_colon)) /\
  (forall prefix after : str,
      String c s = (prefix ++ ":" ++ after)%string ->
      occurs ":" prefix = false -> after <> "" ->
      match int_of_str prefix with
      | None => bdecode (String c s) = Raise (BencodeError msg_str_length)
      | Some n =>
          0 <= n /\
          bdecode (String c s) =
          if len after <? n then Raise (BencodeError msg_str_long)
          else Ok (VStr (slice_to (Z.to_nat n) after), slice_from (Z.to_nat n) after)
      end).
Proof.
  rewrite (bdecode_str_dispatch c s Hc). unfold bdecode_str. repeat split.
  - intros prefix E H. rewrite E, partition_found by exact H. reflexivity.
  - intros H. rewrite partition_not_found by exact H. reflexivity.
  - intros prefix after E H Ha. rewrite E. cbn [append].
    rewrite partition_found by exact H. rewrite (truthy_true after Ha).
    cbn [negb]. destruct (int_of_str prefix) as [n|] eqn:P; [|reflexivity].
    assert (0 <= n) as Hn.
    { destruct prefix as [|c' prefix].
      - discriminate.
      - cbn [append] in E. injection E as <- _.
        eapply parse_literal_nonneg; eauto. }
    split; [exact Hn|].
    replace (n <? 0) with false by (symmetry; apply Z.ltb_ge; exact Hn).
    reflexivity.
Qed.

Lemma bdecode_str_cases_witness :
  bdecode "0:" = Raise (BencodeError msg_str_colon) /\
  bdecode "9:abc" = Raise (BencodeError msg_str_long) /\
  bdecode "2:abc" = Ok (VStr "ab", "c").
Proof.
  split; [|split].
  - apply (bdecode_str_cases "0" ":" eq_refl) with (prefix := "0"); reflexivity.
  - apply (proj2 (proj2 (bdecode_str_cases "9" ":abc" eq_refl)) "9" "abc");
      [reflexivity | reflexivity | discriminate].
  - apply (proj2 (proj2 (bdecode_str_cases "2" ":abc" eq_refl)) "2" "abc");
      [reflexivity | reflexivity | discriminate].
Defined.

(** ** Dictionaries *)

Lemma dkey_eqb_spec (a b : dkey) : reflect (a = b) (dkey_eqb a b).
Proof.
  destruct a as [n|s], b as [m|t]; simpl; try (constructor; discriminate).
  - destruct (Z.eqb_spec n m); constructor; congruence.
  - destruct (String.eqb_spec s t); constructor; congruence.
Qed.

Lemma dkey_eqb_refl (k : dkey) : dkey_eqb k k = true.
Proof. destruct (dkey_eqb_spec k k); congruence. Qed.

Lemma dict_setitem_keys {V : Type} (d : list (dkey * V)) (k : dkey) (v : V) (key : dkey) :
  In key (dict_keys (dict_setitem d k v)) <-> In key (dict_keys d) \/ key = k.
Proof.
  unfold dict_keys. induction d as [|[k' v'] d IH]; simpl.
  - intuition congruence.
  - destruct (dkey_eqb_spec k' k) as [->|Hne]; simpl.
    + intuition congruence.
    + rewrite IH. intuition.
Qed.

(** The filling loop accepts every hashable key, of whatever kind, and
    keeps it as the key of the mapping. *)
Lemma dict_fill_hashable (items : list value) :
  forall result : dict,
    Forall hashable (key_entries items) ->
    exists d, dict_fill items result = Ok d /\
              (forall key, In key (dict_keys result) -> In key (dict_keys d)) /\
              (forall k, In k (key_entries items) ->
                         exists key, key_of_value k = Ok key /\ In key (dict_keys d)).
Proof.
  induction items as [items IH] using (well_founded_induction
    (Wf_nat.well_founded_ltof _ (@List.length value))).
  intros result H.
  destruct items as [|k [|v rest]];
    try (exists result; repeat split; [auto | intros k' []]).
  cbn [key_entries] in H. apply Forall_cons_iff in H as [Hk Hrest].
  cbn [dict_fill].
  assert (exists key, key_of_value k = Ok key) as [key K]
    by (destruct k; try contradiction; eexists; reflexivity).
  rewrite K. cbn [bind].
  destruct (IH rest) with (result := dict_setitem result key v)
    as (d & E & Hold & Hnew); [unfold Wf_nat.ltof; simpl; lia | exact Hrest |].
  exists d. split; [exact E|]. split.
  - intros key' Hin. apply Hold, dict_setitem_keys. now left.
  - intros k' [<-|Hin].
    + exists key. split; [exact K|]. apply Hold, dict_setitem_keys. now right.
    + now apply Hnew.
Qed.

(** C5 (as the code has it).  The entries in key position are not
    required to be byte strings.  When the body of a dictionary decodes,
    as a list, to an even number of entries whose keys are integers or
    byte strings, the dictionary is decoded to the mapping that the
    assignments [result[key] = value] build in order, every key being
    kept with its own kind. *)
Theorem bdecode_dict_keys_unchecked (s rest : str) (items : list value) :
  bdecode (String "l" s) = Ok (VList items, rest) ->
  (List.length items mod 2 = 0)%nat ->
  Forall hashable (key_entries items) ->
  exists d : dict,
    dict_fill items [] = Ok d /\
    bdecode (String "d" s) = Ok (VDict d, rest) /\
    (forall k, In k (key_entries items) ->
               exists key, key_of_value k = Ok key /\ In key (dict_keys d)).
Proof.
  intros L Heven Hkeys.
  destruct (dict_fill_hashable items [] Hkeys) as (d & E & _ & Hin).
  exists d. split; [exact E|]. split; [|exact Hin].
  rewrite bdecode_unfold in L |- *. cbn [bdecode_body] in L |- *.
  change (Ascii.eqb "l" "i") with false in L.
  change (Ascii.eqb "l" "l") with true in L. cbv iota in L.
  change (Ascii.eqb "d" "i") with false. change (Ascii.eqb "d" "l") with false.
  change (Ascii.eqb "d" "d") with true. cbv iota.
  unfold bdecode_dict. cbn [item0 bind slice_from append].
  change (negb (Ascii.eqb "d" "d")) with false. cbv iota.
  rewrite L, Heven, E. reflexivity.
Qed.

Lemma bdecode_dict_keys_unchecked_witness :
  exists d : dict,
    dict_fill [VInt 1; VInt 2] [] = Ok d /\
    bdecode "di1ei2ee" = Ok (VDict d, "") /\
    (forall k, In k [VInt 1] ->
               exists key, key_of_value k = Ok key /\ In key (dict_keys d)).
Proof.
  apply (bdecode_dict_keys_unchecked "i1ei2ee" "" [VInt 1; VInt 2]).
  - reflexivity.
  - reflexivity.
  - repeat constructor.
Defined.

(** The buffer [di1ei2ee], whose key is the integer 1, is decoded to the
    mapping [{1: 2}]: no exception is raised. *)
Lemma bdecode_dict_integer_key :
  bdecode "di1ei2ee" = Ok (VDict [(KInt 1, VInt 2)], "") /\
  ~ (exists e, bdecode "di1ei2ee" = Raise e).
Proof.
  split; [reflexivity|]. intros [e E]. discriminate.
Qed.

(** ** The order on byte strings and [sort] *)

Lemma str_le_refl (a : str) : str_le a a.
Proof. destruct (String.leb_total a a); assumption. Qed.

Lemma str_le_total (a b : str) : str_le a b \/ str_le b a.
Proof. apply String.leb_total. Qed.

Lemma str_le_antisym (a b : str) : str_le a b -> str_le b a -> a = b.
Proof. apply String.leb_antisym. Qed.

Lemma str_le_cons (x y : ascii) (a b : str) :
  str_le (String x a) (String y b) <->
  (N_of_ascii x < N_of_ascii y)%N \/ (x = y /\ str_le a b).
Proof.
  unfold str_le, String.leb. cbn [String.compare]. unfold Ascii.compare.
  destruct (N.compare_spec (N_of_ascii x) (N_of_ascii y)) as [E|L|G].
  - assert (x = y) as ->.
    { rewrite <- (ascii_N_embedding x), <- (ascii_N_embedding y). now f_equal. }
    split; [now right | intros [H|[_ H]]; [lia | exact H]].
  - split; [now left | reflexivity].
  - split; [discriminate | intros [H|[-> _]]; lia].
Qed.

Lemma str_le_trans (a b c : str) : str_le a b -> str_le b c -> str_le a c.
Proof.
  revert b c. induction a as [|x a IH]; intros [|y b] [|z c]; try reflexivity;
    try discriminate.
  rewrite !str_le_cons. intros [H1|[-> H1]] [H2|[-> H2]].
  - left. lia.
  - now left.
  - now left.
  - right. split; [reflexivity|]. eapply IH; eauto.
Qed.


Lemma insert_sorted_perm (k : str) (ks : list str) :
  Permutation (insert_sorted k ks) (k :: ks).
Proof.
  induction ks as [|k' ks IH]; simpl; [reflexivity|].
  destruct (String.leb k k'); [reflexivity|].
  rewrite IH. apply perm_swap.
Qed.

Lemma sort_perm (ks : list str) : Permutation (sort ks) ks.
Proof.
  induction ks as [|k ks IH]; simpl; [reflexivity|].
  rewrite insert_sorted_perm. now constructor.
Qed.



Lemma insert_sorted_comm (a b : str) (ks : list str) :
  insert_sorted a (insert_sorted b ks) = insert_sorted b (insert_sorted a ks).
Proof.
  induction ks as [|k ks IH]; simpl.
  - destruct (String.leb a b) eqn:Lab, (String.leb b a) eqn:Lba; try reflexivity.
    + now rewrite (str_le_antisym a b Lab Lba).
    + destruct (str_le_total a b); unfold str_le in *; congruence.
  - destruct (String.leb b k) eqn:Lbk, (String.leb a k) eqn:Lak; simpl;
      rewrite ?Lbk, ?Lak.
    + destruct (String.leb a b) eqn:Lab, (String.leb b a) eqn:Lba; try reflexivity.
      * now rewrite (str_le_antisym a b Lab Lba).
      * destruct (str_le_total a b); unfold str_le in *; congruence.
    + destruct (String.leb a b) eqn:Lab; [|reflexivity].
      pose proof (str_le_trans a b k Lab Lbk) as H. unfold str_le in H. congruence.
    + destruct (String.leb b a) eqn:Lba; [|reflexivity].
      pose proof (str_le_trans b a k Lba Lak) as H. unfold str_le in H. congruence.
    + now rewrite IH.
Qed.

(** The sorted list depends on the elements only, not on their order. *)
Lemma sort_permutation (ks ks' : list str) :
  Permutation ks ks' -> sort ks = sort ks'.
Proof.
  induction 1; simpl.
  - reflexivity.
  - congruence.
  - apply insert_sorted_comm.
  - congruence.
Qed.


(** ** The encoder *)

Lemma join_map_ext {A : Type} (f g : A -> outcome str) (xs : list A) :
  (forall x, In x xs -> f x = g x) -> join_map f xs = join_map g xs.
Proof.
  induction xs as [|x xs IH]; intros H; simpl; [reflexivity|].
  rewrite (H x) by now left. rewrite IH; [reflexivity|].
  intros y Hy. apply H. now right.
Qed.

Lemma join_map_map {A B : Type} (h : A -> B) (f : B -> outcome str) (xs : list A) :
  join_map f (map h xs) = join_map (fun x => f (h x)) xs.
Proof. induction xs as [|x xs IH]; simpl; [reflexivity|]. now rewrite IH. Qed.

Lemma dict_getitem_map {V W : Type} (h : V -> W) (d : list (dkey * V)) (k : dkey) :
  dict_getitem (map (fun kv => (fst kv, h (snd kv))) d) k =
  (v <- dict_getitem d k ;; Ok (h v)).
Proof.
  induction d as [|[k' v] d IH]; simpl; [reflexivity|].
  destruct (dkey_eqb k' k); [reflexivity | exact IH].
Qed.

(** [bencode] satisfies the recursive equation of the source. *)
Lemma bencode_unfold (obj : value) : bencode obj = bencode_body bencode obj.
Proof.
  destruct obj as [n|b|s|xs|items|]; try reflexivity.
  - cbn [bencode bencode_body]. unfold bencode_list. now rewrite join_map_map.
  - cbn [bencode bencode_body]. unfold bencode_dict. f_equal.
    apply join_map_ext. intros k _. rewrite dict_getitem_map.
    destruct (dict_getitem items (KStr k)); reflexivity.
Qed.

Lemma dict_getitem_in {V : Type} (d : list (dkey * V)) (k : dkey) (v : V) :
  NoDup (dict_keys d) -> In (k, v) d -> dict_getitem d k = Ok v.
Proof.
  unfold dict_keys. induction d as [|[k' v'] d IH]; simpl; intros N H; [contradiction|].
  inversion N as [|? ? Hk Hd]; subst.
  destruct H as [[= -> ->]|H].
  - now rewrite dkey_eqb_refl.
  - destruct (dkey_eqb_spec k' k) as [->|Hne]; [|now apply IH].
    exfalso. apply Hk. change k with (fst (k, v)). now apply in_map.
Qed.


Lemma str_keys_inj (ks : list dkey) :
  Forall is_str_key ks -> map KStr (map str_of_key ks) = ks.
Proof.
  induction 1 as [|k ks Hk _ IH]; [reflexivity|]. simpl. rewrite IH.
  destruct k; [contradiction | reflexivity].
Qed.

Lemma str_keys_nodup (ks : list dkey) :
  Forall is_str_key ks -> NoDup ks -> NoDup (map str_of_key ks).
Proof.
  intros S N. rewrite <- (str_keys_inj ks S) in N.
  induction (map str_of_key ks) as [|k l IH]; [constructor|].
  simpl in N. inversion N as [|? ? Hk Hl]; subst. constructor; [|now apply IH].
  intros H. apply Hk. now apply in_map.
Qed.

(** Every sorted key is the key of an item, which the look-up finds. *)
Lemma sorted_key_lookup (obj : dict) (k : str) :
  NoDup (dict_keys obj) -> Forall is_str_key (dict_keys obj) ->
  In k (sort (map str_of_key (dict_keys obj))) ->
  exists v, In (KStr k, v) obj /\ dict_getitem obj (KStr k) = Ok v.
Proof.
  intros N S Hk.
  assert (In (KStr k) (dict_keys obj)) as Hin.
  { rewrite <- (str_keys_inj _ S). apply in_map.
    eapply Permutation_in; [apply sort_perm | exact Hk]. }
  unfold dict_keys in Hin. apply in_map_iff in Hin as ([k' v] & E & Hin).
  simpl in E. subst k'. exists v. split; [exact Hin|]. now apply dict_getitem_in.
Qed.



(** ** Decoding an encoding *)

Example value_eqb_examples :
  value_eqb (VDict [(KStr "b", VInt 1); (KStr "a", VInt 2)])
            (VDict [(KStr "a", VInt 2); (KStr "b", VInt 1)]) = true /\
  value_eqb (VList [VInt 1; VStr "x"]) (VList [VInt 1; VStr "x"]) = true /\
  value_eqb (VList [VInt 1]) (VList [VInt 1; VInt 2]) = false /\
  value_eqb (VInt 1) (VStr "1") = false /\
  rebuilt (VDict [(KStr "b", VInt 1); (KStr "a", VList [VInt 2])]) =
  VDict [(KStr "a", VList [VInt 2]); (KStr "b", VInt 1)].
Proof. repeat split; reflexivity. Qed.

(** Induction on values, with the hypothesis for the elements of a list
    and for the values of a dictionary. *)
Lemma value_ind' (P : value -> Prop) :
  (forall n, P (VInt n)) ->
  (forall b, P (VBool b)) ->
  (forall s, P (VStr s)) ->
  (forall xs, Forall P xs -> P (VList xs)) ->
  (forall items, Forall (fun kv => P (snd kv)) items -> P (VDict items)) ->
  P VNone ->
  forall v, P v.
Proof.
  intros Hint Hbool Hstr Hlist Hdict Hnone.
  fix IH 1. intros [n|b|s|xs|items|].
  - apply Hint.
  - apply Hbool.
  - apply Hstr.
  - apply Hlist. induction xs as [|x xs IHxs]; constructor; [apply IH | exact IHxs].
  - apply Hdict. induction items as [|[k x] items IHitems]; constructor;
      [apply IH | exact IHitems].
  - apply Hnone.
Qed.

Lemma bdecode_i (s : str) : bdecode (String "i" s) = bdecode_int (String "i" s).
Proof. rewrite bdecode_unfold. reflexivity. Qed.

Lemma bdecode_l (s : str) : bdecode (String "l" s) = bdecode_list bdecode (String "l" s).
Proof. rewrite bdecode_unfold. reflexivity. Qed.

Lemma bdecode_d (s : str) : bdecode (String "d" s) = bdecode_dict bdecode (String "d" s).
Proof. rewrite bdecode_unfold. reflexivity. Qed.

Lemma signed_abs (n : Z) : signed (n <? 0) (Z.abs n) = n.
Proof. unfold signed. destruct (Z.ltb_spec n 0); lia. Qed.

Lemma format_d_sign (n : Z) :
  exists ds, canonical_digits (Z.abs n) ds /\
             format_d n = (sign_str (n <? 0)%Z ++ ds)%string.
Proof. exact (format_d_spec n). Qed.

(** An encoded integer is read back when a byte follows it. *)
Lemma bencode_int_decodes (n : Z) : decodes_to (bencode_int n) (VInt n).
Proof.
  destruct (format_d_sign n) as (ds & (Hne & Hall & Hval & _) & E).
  unfold bencode_int. rewrite E. split.
  - exists "i"%char. eexists. split; [reflexivity | discriminate].
  - intros rest Hr. cbn [append]. rewrite bdecode_i.
    rewrite !append_assoc. cbn [append].
    pose proof (bdecode_int_digits (n <? 0) ds rest Hall Hne) as D.
    cbn [append] in D. rewrite D, (truthy_true rest Hr), Hval, signed_abs.
    reflexivity.
Qed.

(** What the string parser does on a length, a colon and enough bytes. *)
Lemma bdecode_str_digits (ds s rest : str) :
  all_digits ds = true -> ds <> "" -> digits_value 0 ds = len s ->
  bdecode (ds ++ ":" ++ s ++ rest) =
  if truthy (s ++ rest) then Ok (VStr s, rest)
  else Raise (BencodeError msg_str_colon).
Proof.
  intros Hall Hne Hval. destruct ds as [|c ds]; [congruence|].
  pose proof Hall as Hall'. cbn [all_digits] in Hall'.
  apply andb_true_iff in Hall' as [Hc _].
  cbn [append]. rewrite (bdecode_str_dispatch c _ Hc). unfold bdecode_str.
  change (String c (ds ++ String ":" (s ++ rest)))
    with (String c ds ++ String ":" (s ++ rest))%string.
  rewrite partition_found by (apply occurs_digits; [reflexivity | exact Hall]).
  destruct (truthy (s ++ rest)); cbn [negb]; [|reflexivity].
  unfold int_of_str.
  pose proof (parse_literal_digits false false (String c ds) Hall Hne) as PL.
  cbn [sign_str append signed] in PL. rewrite PL, Hval.
  replace (len s <? 0) with false by (symmetry; apply Z.ltb_ge, len_nonneg).
  replace (len (s ++ rest) <? len s) with false.
  2:{ symmetry. apply Z.ltb_ge. rewrite len_append. pose proof (len_nonneg rest). lia. }
  unfold len. rewrite Nat2Z.id, slice_to_append, slice_from_append. reflexivity.
Qed.

Lemma format_d_len (s : str) :
  exists ds, all_digits ds = true /\ ds <> "" /\ digits_value 0 ds = len s /\
             format_d (len s) = ds.
Proof.
  destruct (format_d_sign (len s)) as (ds & (Hne & Hall & Hval & _) & E).
  exists ds. rewrite E. pose proof (len_nonneg s).
  replace (len s <? 0) with false by (symmetry; apply Z.ltb_ge; lia).
  rewrite Z.abs_eq in Hval by lia. auto.
Qed.

(** An encoded string is read back when a byte follows it. *)
Lemma bencode_str_decodes (s : str) : decodes_to (bencode_str s) (VStr s).
Proof.
  destruct (format_d_len s) as (ds & Hall & Hne & Hval & E).
  unfold bencode_str. rewrite E. split.
  - destruct ds as [|c ds]; [congruence|]. exists c. eexists.
    split; [reflexivity|]. cbn [all_digits] in Hall.
    apply andb_true_iff in Hall as [Hc _]. intros ->. discriminate.
  - intros rest Hr. rewrite !append_assoc. cbn [append].
    pose proof (bdecode_str_digits ds s rest Hall Hne Hval) as D.
    cbn [append] in D. rewrite D.
    destruct s; cbn [append truthy]; [now rewrite (truthy_true rest Hr) | reflexivity].
Qed.

(** The loop of [bdecode_list] reads a sequence of encodings up to the
    terminator. *)
Lemma bdecode_list_loop_decodes (pairs : list (str * value)) :
  forall (n : nat) (result : list value) (rest : str),
    Forall (fun p => decodes_to (fst p) (snd p)) pairs ->
    (String.length (String.concat "" (map fst pairs) ++ String "e" rest) < n)%nat ->
    bdecode_list_loop bdecode n (String.concat "" (map fst pairs) ++ String "e" rest) result
    = Ok ((result ++ map snd pairs)%list, String "e" rest).
Proof.
  induction pairs as [|[enc v] pairs IH]; intros n result rest H Hn.
  - cbn [map String.concat append] in *. destruct n as [|n]; [lia|].
    rewrite bdecode_list_loop_stop by eauto. now rewrite app_nil_r.
  - apply Forall_cons_iff in H as [[(c & s & E & Hc) Hdec] Hrest].
    cbn [fst snd] in E, Hdec.
    assert (String.concat "" (map fst ((enc, v) :: pairs)) ++ String "e" rest
            = enc ++ (String.concat "" (map fst pairs) ++ String "e" rest))%string as Ecat.
    { cbn [map fst]. destruct pairs as [|p pairs].
      - cbn [map String.concat append]. reflexivity.
      - cbn [map String.concat]. cbn [append]. now rewrite append_assoc. }
    rewrite Ecat in Hn |- *.
    specialize (Hdec (String.concat "" (map fst pairs) ++ String "e" rest)%string).
    assert (String.concat "" (map fst pairs) ++ String "e" rest <> "")%string as Hne
      by (destruct (String.concat "" (map fst pairs)); discriminate).
    specialize (Hdec Hne). subst enc. cbn [append] in Hdec, Hn |- *.
    rewrite (bdecode_list_loop_next bdecode bdecode_shrinking n c _ v _ result Hc Hdec Hn).
    rewrite IH by (exact Hrest || lia).
    cbn [map snd]. now rewrite <- app_assoc.
Qed.

(** A list of encodings between [l] and [e] is read back as the list of
    their values, whatever follows. *)
Lemma bdecode_list_decodes (pairs : list (str * value)) (rest : str) :
  Forall (fun p => decodes_to (fst p) (snd p)) pairs ->
  bdecode_list bdecode ("l" ++ String.concat "" (map fst pairs) ++ "e" ++ rest)
  = Ok (VList (map snd pairs), rest).
Proof.
  intros H. unfold bdecode_list. cbn [append item0 bind slice_from].
  change (negb (Ascii.eqb "l" "l")) with false. cbv iota.
  rewrite bdecode_list_loop_decodes by (exact H || (cbn [String.length]; lia)).
  reflexivity.
Qed.

Lemma concat_cons (x : str) (l : list str) :
  String.concat "" (x :: l) = (x ++ String.concat "" l)%string.
Proof. destruct l; cbn [String.concat append]; [now rewrite append_nil_r | reflexivity]. Qed.

Lemma fold_right_Forall {A : Type} (P : A -> Prop) (l : list A) :
  fold_right (fun x Q => P x /\ Q) True l <-> Forall P l.
Proof.
  induction l as [|x l IH]; simpl; [intuition|].
  rewrite IH, Forall_cons_iff. reflexivity.
Qed.

(** The encodings of a sequence of values that are read back. *)
Lemma join_map_decodes {A : Type} (f : A -> outcome str) (g : A -> value) (xs : list A) :
  Forall (fun x => exists enc, f x = Ok enc /\ decodes_to enc (g x)) xs ->
  exists pairs : list (str * value),
    join_map f xs = Ok (String.concat "" (map fst pairs)) /\
    map snd pairs = map g xs /\
    Forall (fun p => decodes_to (fst p) (snd p)) pairs.
Proof.
  induction 1 as [|x xs (enc & E & D) _ (pairs & J & M & F)].
  - exists []. repeat split; constructor.
  - exists ((enc, g x) :: pairs). cbn [join_map map fst snd].
    rewrite E, J, concat_cons, M. repeat split. now constructor.
Qed.

Lemma dict_setitem_new {V : Type} (d : list (dkey * V)) (k : dkey) (v : V) :
  ~ In k (dict_keys d) -> dict_setitem d k v = (d ++ [(k, v)])%list.
Proof.
  unfold dict_keys. induction d as [|[k' v'] d IH]; simpl; intros H; [reflexivity|].
  destruct (dkey_eqb_spec k' k) as [->|Hne]; [exfalso; apply H; now left|].
  rewrite IH; [reflexivity|]. intros Hin. apply H. now right.
Qed.

(** The filling loop on alternating distinct string keys and values. *)
Lemma dict_fill_pairs (g : str -> value) (ks : list str) :
  forall acc : dict,
    NoDup ks -> (forall k, In k ks -> ~ In (KStr k) (dict_keys acc)) ->
    dict_fill (flat_map (fun k => [VStr k; g k]) ks) acc =
    Ok (acc ++ map (fun k => (KStr k, g k)) ks)%list.
Proof.
  induction ks as [|k ks IH]; intros acc N H.
  - simpl. now rewrite app_nil_r.
  - inversion N as [|? ? Hk Hks]; subst.
    cbn [flat_map app dict_fill key_of_value bind].
    rewrite dict_setitem_new by (apply H; now left).
    rewrite IH; [now rewrite <- app_assoc | exact Hks |].
    intros k' Hk' Hin. unfold dict_keys in Hin. rewrite map_app in Hin.
    apply in_app_or in Hin as [Hin|[[= ->]|[]]].
    + apply (H k'); [now right | exact Hin].
    + contradiction.
Qed.

Lemma flat_map_pairs_even {A B : Type} (f g : A -> B) (l : list A) :
  (List.length (flat_map (fun x => [f x; g x]) l) mod 2 = 0)%nat.
Proof.
  induction l as [|x l IH]; [reflexivity|].
  cbn [flat_map app List.length].
  change (S (S ?n)) with (2 + n)%nat.
  replace (2 + List.length (flat_map (fun x => [f x; g x]) l))%nat
    with (List.length (flat_map (fun x => [f x; g x]) l) + 1 * 2)%nat by lia.
  now rewrite Nat.Div0.mod_add.
Qed.

(** A sequence of string keys and encodings between [d] and [e] is read
    back as the dictionary of the keys and values, whatever follows. *)
Lemma bdecode_dict_decodes (g : str -> value) (ks : list str) (encs : str -> str)
      (rest : str) :
  NoDup ks ->
  (forall k, In k ks -> decodes_to (encs k) (g k)) ->
  bdecode_dict bdecode
    ("d" ++ String.concat "" (map (fun k => bencode_str k ++ encs k)%string ks) ++ "e" ++ rest)
  = Ok (VDict (map (fun k => (KStr k, g k)) ks), rest).
Proof.
  intros N H. unfold bdecode_dict. cbn [append item0 bind slice_from].
  change (negb (Ascii.eqb "d" "d")) with false. cbv iota.
  pose (pairs := flat_map (fun k => [(bencode_str k, VStr k); (encs k, g k)]) ks).
  assert (String.concat "" (map (fun k => bencode_str k ++ encs k)%string ks)
          = String.concat "" (map fst pairs)) as Ebody.
  { subst pairs. clear. induction ks as [|k ks IH]; [reflexivity|].
    cbn [map flat_map app fst]. rewrite !concat_cons, IH, append_assoc. reflexivity. }
  assert (map snd pairs = flat_map (fun k => [VStr k; g k]) ks) as Evals.
  { subst pairs. clear. induction ks as [|k ks IH]; [reflexivity|].
    cbn [map flat_map app snd]. now rewrite IH. }
  assert (Forall (fun p => decodes_to (fst p) (snd p)) pairs) as Hpairs.
  { subst pairs. clear -H. induction ks as [|k ks IH]; [constructor|].
    cbn [flat_map app]. constructor; [apply bencode_str_decodes|].
    constructor; [apply H; now left|]. apply IH. intros k' Hk'. apply H. now right. }
  pose proof (bdecode_list_decodes pairs rest Hpairs) as L.
  cbn [append] in L. rewrite Ebody, L, Evals, flat_map_pairs_even.
  cbn [Nat.eqb negb]. rewrite dict_fill_pairs by (exact N || (intros k _ [])).
  reflexivity.
Qed.

Lemma join_map_ok {A : Type} (f : A -> outcome str) (h : A -> str) (xs : list A) :
  (forall x, In x xs -> f x = Ok (h x)) ->
  join_map f xs = Ok (String.concat "" (map h xs)).
Proof.
  induction xs as [|x xs IH]; intros H; [reflexivity|].
  cbn [join_map map]. rewrite (H x) by now left.
  rewrite IH by (intros y Hy; apply H; now right).
  cbn [bind]. now rewrite concat_cons.
Qed.

(** Every value of the data model has an encoding, which the decoder
    reads back when at least one byte follows it; the encoding of a list
    or of a dictionary is also read back when nothing follows it. *)
Lemma bencode_decodes (v : value) :
  bencodable v ->
  exists enc : str,
    bencode v = Ok enc /\ decodes_to enc (rebuilt v) /\
    match v with
    | VList _ | VDict _ => bdecode enc = Ok (rebuilt v, "")
    | _ => True
    end.
Proof.
  induction v as [n|b|s|xs IH|items IH|] using value_ind'; intros B;
    try contradiction.
  - exists (bencode_int n).
    split; [reflexivity|]. split; [apply bencode_int_decodes | exact I].
  - exists (bencode_str s).
    split; [reflexivity|]. split; [apply bencode_str_decodes | exact I].
  - cbn [bencodable] in B. apply fold_right_Forall in B.
    assert (Forall (fun x => exists enc, bencode x = Ok enc /\ decodes_to enc (rebuilt x)) xs)
      as H.
    { rewrite Forall_forall in IH, B |- *. intros x Hx.
      destruct (IH x Hx (B x Hx)) as (enc & E & D & _). eauto. }
    apply join_map_decodes in H as (pairs & J & M & F).
    rewrite bencode_unfold. cbn [bencode_body]. unfold bencode_list. rewrite J.
    cbn [bind rebuilt]. rewrite <- M. eexists. split; [reflexivity|].
    assert (forall rest : str,
               bdecode (("l" ++ String.concat "" (map fst pairs) ++ "e") ++ rest)
               = Ok (VList (map snd pairs), rest)) as D.
    { intros rest. rewrite !append_assoc. cbn [append]. rewrite bdecode_l.
      exact (bdecode_list_decodes pairs rest F). }
    split; [split|].
    + exists "l"%char. eexists. split; [reflexivity | discriminate].
    + intros rest _. apply D.
    + rewrite <- (append_nil_r (_ ++ _ ++ "e")). apply D.
  - cbn [bencodable] in B. destruct B as (N & S & B). apply fold_right_Forall in B.
    set (keys := sort (map str_of_key (dict_keys items))).
    set (items' := map (fun kv => (fst kv, rebuilt (snd kv))) items).
    set (g := fun k => match dict_getitem items' (KStr k) with
                       | Ok v' => v'
                       | _ => VNone
                       end).
    set (encs := fun k => match dict_getitem items (KStr k) with
                          | Ok v => match bencode v with Ok e => e | _ => "" end
                          | _ => ""
                          end).
    assert (forall k, In k keys ->
              (v <- dict_getitem items (KStr k) ;; e <- bencode v ;;
               Ok (bencode_str k ++ e)%string) = Ok (bencode_str k ++ encs k)%string
              /\ decodes_to (encs k) (g k)) as H.
    { intros k Hk. destruct (sorted_key_lookup items k N S Hk) as (v & Hin & G).
      rewrite Forall_forall in IH, B.
      destruct (IH _ Hin (B _ Hin)) as (enc & E & D & _). cbn [snd] in E, D.
      subst encs g items'. cbv beta. rewrite dict_getitem_map, G. cbn [bind].
      rewrite E. cbn [bind]. split; [reflexivity | exact D]. }
    assert (NoDup keys) as Nk.
    { eapply Permutation_NoDup; [apply Permutation_sym, sort_perm|].
      now apply str_keys_nodup. }
    rewrite bencode_unfold. cbn [bencode_body]. unfold bencode_dict.
    fold keys. rewrite (join_map_ok _ (fun k => bencode_str k ++ encs k)%string)
      by (intros k Hk; apply H, Hk).
    cbn [bind rebuilt]. fold items' keys. eexists. split; [reflexivity|].
    assert (forall rest : str,
               bdecode (("d" ++ String.concat ""
                                  (map (fun k => bencode_str k ++ encs k)%string keys)
                             ++ "e") ++ rest)
               = Ok (VDict (map (fun k => (KStr k, g k)) keys), rest)) as D.
    { intros rest. rewrite !append_assoc. cbn [append]. rewrite bdecode_d.
      apply (bdecode_dict_decodes g keys encs rest Nk). intros k Hk. apply H, Hk. }
    split; [split|].
    + exists "d"%char. eexists. split; [reflexivity | discriminate].
    + intros rest _. apply D.
    + rewrite <- (append_nil_r (_ ++ _ ++ "e")). apply D.
Qed.

(** ** The rebuilt value equals the encoded one *)

Lemma dict_getitem_keys {V : Type} (g : str -> V) (ks : list str) (k : str) :
  In k ks -> dict_getitem (map (fun k => (KStr k, g k)) ks) (KStr k) = Ok (g k).
Proof.
  induction ks as [|k' ks IH]; simpl; intros H; [contradiction|].
  destruct (String.eqb_spec k' k) as [->|Hne]; [reflexivity|].
  destruct H as [->|H]; [congruence | now apply IH].
Qed.

Lemma value_eqb_rebuilt (v : value) : bencodable v -> value_eqb v (rebuilt v) = true.
Proof.
  induction v as [n|b|s|xs IH|items IH|] using value_ind'; intros B;
    try contradiction.
  - apply Z.eqb_refl.
  - apply String.eqb_refl.
  - cbn [bencodable] in B. apply fold_right_Forall in B.
    cbn [rebuilt value_eqb]. induction xs as [|x xs IHxs]; [reflexivity|].
    apply Forall_cons_iff in IH as [Hx IH], B as [Bx B].
    cbn [map]. rewrite (Hx Bx). now apply IHxs.
  - cbn [bencodable] in B. destruct B as (N & S & B). apply fold_right_Forall in B.
    cbn [rebuilt value_eqb]. apply andb_true_iff. split.
    + apply Nat.eqb_eq. rewrite length_map.
      rewrite (Permutation_length (sort_perm _)). unfold dict_keys.
      now rewrite !length_map.
    + apply forallb_forall. intros [k v] Hin. cbn [fst snd].
      rewrite Forall_forall in IH, B, S.
      assert (In k (dict_keys items)) as Hk
        by (unfold dict_keys; change k with (fst (k, v)); now apply in_map).
      specialize (S k Hk). destruct k as [n|s]; [contradiction|].
      rewrite dict_getitem_keys.
      2:{ eapply Permutation_in; [apply Permutation_sym, sort_perm|].
          change s with (str_of_key (KStr s)). now apply in_map. }
      rewrite dict_getitem_map, (dict_getitem_in items (KStr s) v N Hin).
      cbn [bind]. exact (IH _ Hin (B _ Hin)).
Qed.

(** ** Round trip *)

Lemma bdecode_bencode_int (n : Z) :
  bdecode (bencode_int n) = Raise (BencodeError msg_int_end).
Proof.
  destruct (format_d_sign n) as (ds & (Hne & Hall & _) & E).
  unfold bencode_int. rewrite E. cbn [append]. rewrite bdecode_i.
  rewrite append_assoc.
  exact (bdecode_int_digits (n <? 0) ds "" Hall Hne).
Qed.

Lemma bdecode_bencode_str (s : str) :
  bdecode (bencode_str s) =
  if truthy s then Ok (VStr s, "") else Raise (BencodeError msg_str_colon).
Proof.
  destruct (format_d_len s) as (ds & Hall & Hne & Hval & E).
  unfold bencode_str. rewrite E.
  pose proof (bdecode_str_digits ds s "" Hall Hne Hval) as D.
  now rewrite append_nil_r in D.
Qed.

(** C1 (what the code does).  Every value of the data model has an
    encoding.  Decoding the encoding followed by at least one more byte
    returns a value equal to the encoded one, and those bytes.  Decoding
    the encoding alone does so for lists, dictionaries and non-empty
    strings, but raises [BencodeError] for every integer and for the
    empty string. *)
Theorem bdecode_bencode (v : value) :
  bencodable v ->
  exists enc : str,
    bencode v = Ok enc /\
    value_eqb v (rebuilt v) = true /\
    (forall rest : str, rest <> "" -> bdecode (enc ++ rest) = Ok (rebuilt v, rest)) /\
    bdecode enc =
    match v with
    | VInt _ => Raise (BencodeError msg_int_end)
    | VStr "" => Raise (BencodeError msg_str_colon)
    | _ => Ok (rebuilt v, "")
    end.
Proof.
  intros B. destruct (bencode_decodes v B) as (enc & E & [_ D] & T).
  exists enc. split; [exact E|]. split; [now apply value_eqb_rebuilt|].
  split; [exact D|].
  destruct v as [n|b|s|xs|items|]; try contradiction; try exact T.
  - injection E as <-. apply bdecode_bencode_int.
  - injection E as <-. rewrite bdecode_bencode_str. now destruct s.
Qed.

Lemma bdecode_bencode_witness :
  exists enc : str,
    bencode (VInt 42) = Ok enc /\
    value_eqb (VInt 42) (VInt 42) = true /\
    (forall rest : str, rest <> "" -> bdecode (enc ++ rest) = Ok (VInt 42, rest)) /\
    bdecode enc = Raise (BencodeError msg_int_end).
Proof.
  apply (bdecode_bencode (VInt 42)). exact I.
Defined.

(** The round trip fails on the integer 42 and on the empty string. *)
Lemma bdecode_bencode_fails :
  bencode (VInt 42) = Ok "i42e" /\
  bdecode "i42e" = Raise (BencodeError msg_int_end) /\
  bencode (VStr "") = Ok "0:" /\
  bdecode "0:" = Raise (BencodeError msg_str_colon).
Proof. repeat split; reflexivity. Qed.

Lemma bencode_int_canonical_witness :
  canonical_digits 42 "42" /\ bencode (VInt 42) = Ok "i42e".
Proof.
  destruct (bencode_int_canonical 42) as ((ds & C & U & E) & _).
  assert (canonical_digits 42 "42") as C42.
  { repeat split; try reflexivity; [discriminate | intros ds' H; discriminate]. }
  split; [exact C42|]. rewrite E, <- (U "42" C42). reflexivity.
Defined.

(** * Further properties of the module *)

(** ** The exceptions of the encoder *)




Lemma dict_getitem_ok {V : Type} (d : list (dkey * V)) (k : dkey) (v : V) :
  dict_getitem d k = Ok v -> In (k, v) d.
Proof.
  induction d as [|[k' v'] d IH]; simpl; [discriminate|].
  destruct (dkey_eqb_spec k' k) as [->|Hne].
  - intros [= ->]. now left.
  - intros H. right. now apply IH.
Qed.

Lemma dict_getitem_exn {V : Type} (d : list (dkey * V)) (k : dkey) (e : exn) :
  dict_getitem d k = Raise e -> e = KeyError.
Proof.
  induction d as [|[k' v'] d IH]; simpl; [congruence|].
  destruct (dkey_eqb k' k); [discriminate | exact IH].
Qed.

Lemma dict_getitem_fuel {V : Type} (d : list (dkey * V)) (k : dkey) :
  dict_getitem d k <> OutOfFuel.
Proof.
  induction d as [|[k' v'] d IH]; simpl; [discriminate|].
  destruct (dkey_eqb k' k); [discriminate | exact IH].
Qed.







(** ** Encodings are self-delimiting *)

Lemma append_inv_head (a b c : str) : (a ++ b)%string = (a ++ c)%string -> b = c.
Proof. induction a as [|x a IH]; simpl; [auto|]. intros [= H]. auto. Qed.

Lemma append_inv_tail (a b c : str) : (a ++ c)%string = (b ++ c)%string -> a = b.
Proof.
  revert b. induction a as [|x a IH]; intros [|y b] H.
  - reflexivity.
  - apply (f_equal String.length) in H. cbn [append String.length] in H.
    rewrite length_append in H. lia.
  - apply (f_equal String.length) in H. cbn [append String.length] in H.
    rewrite length_append in H. lia.
  - cbn [append] in H. injection H as -> H. f_equal. now apply IH.
Qed.

(** X2.  Encodings are self-delimiting: when an encoding followed by
    some bytes is the same buffer as another encoding followed by other
    bytes, the two encodings are the same, so are the bytes that follow,
    and the two values are rebuilt as the same value by the decoder. *)
Theorem bencode_self_delimiting (v v' : value) (enc enc' r r' : str) :
  bencodable v -> bencodable v' ->
  bencode v = Ok enc -> bencode v' = Ok enc' ->
  (enc ++ r)%string = (enc' ++ r')%string ->
  enc = enc' /\ r = r' /\ rebuilt v = rebuilt v'.
Proof.
  intros B B' E E' H.
  destruct (bencode_decodes v B) as (e1 & E1 & [_ D] & _).
  destruct (bencode_decodes v' B') as (e2 & E2 & [_ D'] & _).
  rewrite E in E1. injection E1 as <-. rewrite E' in E2. injection E2 as <-.
  pose proof (D (r ++ "x")%string) as D1.
  pose proof (D' (r' ++ "x")%string) as D2.
  rewrite <- append_assoc in D1, D2. rewrite H in D1.
  rewrite D1 in D2 by (destruct r; discriminate).
  specialize (D2 ltac:(destruct r'; discriminate)).
  injection D2 as Hv Hr. apply append_inv_tail in Hr. subst r'.
  apply append_inv_tail in H. auto.
Qed.

Lemma bencode_self_delimiting_witness :
  "d1:ai2e1:bi1ee" = "d1:ai2e1:bi1ee" /\ "xyz" = "xyz" /\
  rebuilt (VDict [(KStr "b", VInt 1); (KStr "a", VInt 2)]) =
  rebuilt (VDict [(KStr "a", VInt 2); (KStr "b", VInt 1)]).
Proof.
  apply (bencode_self_delimiting
           (VDict [(KStr "b", VInt 1); (KStr "a", VInt 2)])
           (VDict [(KStr "a", VInt 2); (KStr "b", VInt 1)])
           "d1:ai2e1:bi1ee" "d1:ai2e1:bi1ee" "xyz" "xyz");
    try reflexivity;
    (split; [|split; [repeat constructor | cbn; auto]]);
    repeat constructor; simpl; intuition discriminate.
Defined.

(** ** Equal values have the same encoding *)

Lemma value_eqb_list (xs ys : list value) :
  value_eqb (VList xs) (VList ys) = true <->
  Forall2 (fun x y => value_eqb x y = true) xs ys.
Proof.
  cbn [value_eqb]. revert ys. induction xs as [|x xs IH]; intros [|y ys].
  - split; [constructor | reflexivity].
  - split; [discriminate | intros H; inversion H].
  - split; [discriminate | intros H; inversion H].
  - rewrite andb_true_iff, IH. split.
    + intros [H1 H2]. now constructor.
    + intros H. inversion H; subst. auto.
Qed.

Lemma dict_keys_in {V : Type} (d : list (dkey * V)) (k : dkey) (v : V) :
  In (k, v) d -> In k (dict_keys d).
Proof. intros H. unfold dict_keys. change k with (fst (k, v)). now apply in_map. Qed.

Lemma bencode_respects_eq (v : value) :
  forall v', bencodable v -> bencodable v' -> value_eqb v v' = true ->
             bencode v = bencode v'.
Proof.
  induction v as [n|b|s|xs IH|items IH|] using value_ind'; intros v' B B' E;
    try contradiction; destruct v' as [m|b'|t|ys|items'|]; try discriminate;
    try contradiction.
  - cbn [value_eqb] in E. apply Z.eqb_eq in E. now subst.
  - cbn [value_eqb] in E. apply String.eqb_eq in E. now subst.
  - apply value_eqb_list in E. cbn [bencodable] in B, B'.
    apply fold_right_Forall in B, B'.
    rewrite !bencode_unfold. cbn [bencode_body]. unfold bencode_list. f_equal.
    revert IH B B'. induction E as [|x y xs ys Hxy E IHE]; intros IH B B';
      [reflexivity|].
    apply Forall_cons_iff in IH as [Hx IH], B as [Bx B], B' as [By B'].
    cbn [join_map]. rewrite (Hx y Bx By Hxy), (IHE IH B B'). reflexivity.
  - cbn [value_eqb] in E. apply andb_true_iff in E as [EL EA].
    apply Nat.eqb_eq in EL. rewrite forallb_forall in EA.
    cbn [bencodable] in B, B'. destruct B as (N & S & B), B' as (N' & S' & B').
    apply fold_right_Forall in B, B'. rewrite Forall_forall in IH, B, B'.
    assert (forall k v, In (k, v) items ->
              exists v', dict_getitem items' k = Ok v' /\ value_eqb v v' = true) as EA'.
    { intros k v Hin. specialize (EA (k, v) Hin). cbn [fst snd] in EA.
      destruct (dict_getitem items' k) as [v'| |]; try discriminate. eauto. }
    assert (Permutation (dict_keys items) (dict_keys items')) as P.
    { apply NoDup_Permutation_bis; [exact N | |].
      - unfold dict_keys. rewrite !length_map. lia.
      - intros k Hk. unfold dict_keys in Hk. apply in_map_iff in Hk as ([k' v] & <- & Hin).
        destruct (EA' _ _ Hin) as (v' & G & _). apply dict_getitem_ok in G.
        eapply dict_keys_in; eauto. }
    rewrite !bencode_unfold. cbn [bencode_body]. unfold bencode_dict.
    rewrite <- (sort_permutation _ _ (Permutation_map str_of_key P)).
    f_equal. apply join_map_ext. intros k Hk.
    destruct (sorted_key_lookup items k N S Hk) as (v & Hin & G).
    destruct (EA' _ _ Hin) as (v' & G' & Ev). rewrite G, G'. cbn [bind].
    apply dict_getitem_ok in G'.
    pose proof (IH _ Hin v' (B _ Hin) (B' _ G') Ev) as R. cbn [snd] in R.
    now rewrite R.
Qed.

Lemma rebuilt_bencodable (v : value) : bencodable v -> bencodable (rebuilt v).
Proof.
  induction v as [n|b|s|xs IH|items IH|] using value_ind'; intros B;
    try contradiction; try exact I.
  - cbn [bencodable] in B. apply fold_right_Forall in B.
    cbn [rebuilt bencodable]. apply fold_right_Forall.
    rewrite Forall_forall in IH, B |- *. intros y Hy.
    apply in_map_iff in Hy as (x & <- & Hx). auto.
  - cbn [bencodable] in B. destruct B as (N & S & B). apply fold_right_Forall in B.
    cbn [rebuilt bencodable].
    set (keys := sort (map str_of_key (dict_keys items))).
    assert (NoDup keys) as Nk.
    { eapply Permutation_NoDup; [apply Permutation_sym, sort_perm|].
      now apply str_keys_nodup. }
    unfold dict_keys at 1 2. rewrite !map_map. cbn [fst].
    split; [|split].
    + clear -Nk. induction Nk as [|k ks Hk _ IHk]; [constructor|].
      cbn [map]. constructor; [|exact IHk].
      intros Hin. apply in_map_iff in Hin as (k' & [= ->] & Hk'). contradiction.
    + apply Forall_forall. intros k Hk. apply in_map_iff in Hk as (k' & <- & _).
      exact I.
    + apply fold_right_Forall, Forall_forall. intros [k v] Hin.
      apply in_map_iff in Hin as (k' & [= <- <-] & Hk'). cbn [snd].
      destruct (sorted_key_lookup items k' N S Hk') as (v & Hv & G).
      rewrite dict_getitem_map, G. cbn [bind].
      rewrite Forall_forall in IH, B. exact (IH _ Hv (B _ Hv)).
Qed.

(** X3.  Values that are equal in Python, whatever the order of the
    items of their dictionaries, have the same encoding; and encoding
    the value that the decoder rebuilds from an encoding gives that
    encoding again. *)
Theorem bencode_canonical (v v' : value) :
  bencodable v -> bencodable v' -> value_eqb v v' = true ->
  bencode v = bencode v' /\ bencode (rebuilt v) = bencode v.
Proof.
  intros B B' E. split; [now apply bencode_respects_eq|].
  symmetry. apply bencode_respects_eq; [exact B | |].
  - now apply rebuilt_bencodable.
  - now apply value_eqb_rebuilt.
Qed.

Lemma bencode_canonical_witness :
  bencode (VList [VDict [(KStr "b", VInt 1); (KStr "a", VStr "x")]]) =
  bencode (VList [VDict [(KStr "a", VStr "x"); (KStr "b", VInt 1)]]) /\
  bencode (rebuilt (VList [VDict [(KStr "b", VInt 1); (KStr "a", VStr "x")]])) =
  bencode (VList [VDict [(KStr "b", VInt 1); (KStr "a", VStr "x")]]).
Proof.
  apply bencode_canonical; try reflexivity;
    (split; [|exact I]); (split; [|split; [repeat constructor | cbn; auto]]);
    repeat constructor; simpl; intuition discriminate.
Defined.

(** ** The form of decoded values *)

Lemma dict_setitem_nodup {V : Type} (d : list (dkey * V)) (k : dkey) (v : V) :
  NoDup (dict_keys d) -> NoDup (dict_keys (dict_setitem d k v)).
Proof.
  induction d as [|[k' v'] d IH]; cbn [dict_setitem]; intros N.
  - repeat constructor. intros [].
  - unfold dict_keys in N. cbn [map fst] in N. inversion N as [|? ? Hk Hd]; subst.
    destruct (dkey_eqb_spec k' k) as [->|Hne].
    + unfold dict_keys. cbn [map fst]. now constructor.
    + unfold dict_keys. cbn [map fst]. constructor; [|now apply IH].
      intros Hin. apply (dict_setitem_keys d k v k') in Hin as [Hin|Hin];
        [contradiction | congruence].
Qed.

Lemma dict_setitem_values {V : Type} (Q : V -> Prop) (d : list (dkey * V))
      (k : dkey) (v : V) :
  Forall (fun kv => Q (snd kv)) d -> Q v ->
  Forall (fun kv => Q (snd kv)) (dict_setitem d k v).
Proof.
  intros H Hv. induction H as [|[k' v'] d Hkv Hd IH]; cbn [dict_setitem].
  - constructor; [exact Hv | constructor].
  - destruct (dkey_eqb k' k); (constructor; [|assumption]); assumption.
Qed.

Lemma dict_fill_form (items : list value) :
  forall (acc d : dict),
    Forall decoded_form items ->
    NoDup (dict_keys acc) -> Forall (fun kv => decoded_form (snd kv)) acc ->
    dict_fill items acc = Ok d ->
    NoDup (dict_keys d) /\ Forall (fun kv => decoded_form (snd kv)) d.
Proof.
  induction items as [items IH] using (well_founded_induction
    (Wf_nat.well_founded_ltof _ (@List.length value))).
  intros acc d F N A. destruct items as [|k [|v rest]];
    try (intros [= <-]; now split).
  cbn [dict_fill]. destruct (key_of_value k) as [key| |]; cbn [bind];
    try discriminate.
  apply Forall_cons_iff in F as [_ F]. apply Forall_cons_iff in F as [Fv F].
  apply IH; [unfold Wf_nat.ltof; simpl; lia | exact F | |].
  - now apply dict_setitem_nodup.
  - now apply dict_setitem_values.
Qed.

Section DecoderForm.
Variable f : str -> outcome (value * str).
Hypothesis f_form : forall s v r, f s = Ok (v, r) -> decoded_form v.

Lemma bdecode_list_loop_form (n : nat) :
  forall leftovers result result' leftovers',
    Forall decoded_form result ->
    bdecode_list_loop f n leftovers result = Ok (result', leftovers') ->
    Forall decoded_form result'.
Proof.
  induction n as [|n IH]; intros l res res' l' F; [discriminate|].
  rewrite bdecode_list_loop_step. destruct l as [|c l]; [now intros [= <- <-]|].
  destruct (Ascii.eqb c "e"); [now intros [= <- <-]|].
  destruct (f (String c l)) as [[v r]| |] eqn:E; cbn [bind fst snd];
    try discriminate.
  apply IH. apply Forall_app. split; [exact F|]. constructor; [|constructor].
  eapply f_form; eauto.
Qed.

Lemma bdecode_list_form (s : str) (v : value) (r : str) :
  bdecode_list f s = Ok (v, r) -> decoded_form v.
Proof.
  unfold bdecode_list. destruct (item0 s) as [c| |]; cbn [bind]; try discriminate.
  destruct (negb _); [discriminate|].
  destruct (bdecode_list_loop f _ _ []) as [[res l]| |] eqn:L; cbn [bind];
    try discriminate.
  destruct (negb _); [discriminate|]. intros [= <- <-].
  apply bdecode_list_loop_form in L; [|constructor].
  cbn [list_factory decoded_form]. now apply fold_right_Forall.
Qed.

Lemma bdecode_dict_form (s : str) (v : value) (r : str) :
  bdecode_dict f s = Ok (v, r) -> decoded_form v.
Proof.
  unfold bdecode_dict. destruct (item0 s) as [c| |]; cbn [bind]; try discriminate.
  destruct (negb _); [discriminate|].
  destruct (bdecode_list f _) as [[items l]|e|] eqn:L;
    [|destruct e; discriminate|discriminate].
  apply bdecode_list_form in L.
  destruct items as [| | |xs| |]; try discriminate.
  destruct (negb _); [discriminate|].
  destruct (dict_fill xs []) as [d| |] eqn:D; cbn [bind]; try discriminate.
  intros [= <- <-]. cbn [decoded_form] in L. apply fold_right_Forall in L.
  destruct (dict_fill_form xs [] d L) as [N F]; [constructor | constructor | exact D |].
  cbn [dict_factory decoded_form]. split; [exact N|]. now apply fold_right_Forall.
Qed.

Lemma bdecode_body_form (s : str) (v : value) (r : str) :
  bdecode_body f s = Ok (v, r) -> decoded_form v.
Proof.
  unfold bdecode_body. destruct s as [|c s]; [discriminate|].
  destruct (Ascii.eqb c "i").
  { unfold bdecode_int. destruct (_ || _); [discriminate|].
    destruct (partition "e" _) as [[before found] after].
    destruct (negb _); [discriminate|].
    unfold int_factory. destruct (long_of_str _); cbn [bind]; [|discriminate].
    now intros [= <- <-]. }
  destruct (Ascii.eqb c "l"); [apply bdecode_list_form|].
  destruct (Ascii.eqb c "d"); [apply bdecode_dict_form|].
  destruct (isdigit c); [|discriminate].
  unfold bdecode_str. destruct (partition ":" _) as [[before found] after].
  destruct (negb _); [discriminate|].
  destruct (int_of_str before) as [n|]; [|discriminate].
  destruct (n <? 0); [discriminate|].
  destruct (_ <? n); [discriminate|]. now intros [= <- <-].
Qed.
End DecoderForm.

Lemma bdecode_fuel_form (fuel : nat) :
  forall s v r, bdecode_fuel fuel s = Ok (v, r) -> decoded_form v.
Proof.
  induction fuel as [|fuel IH]; intros s v r; [discriminate|].
  cbn [bdecode_fuel]. now apply bdecode_body_form.
Qed.

Lemma decoded_form_bencodable (v : value) :
  decoded_form v -> str_keyed v -> bencodable v.
Proof.
  induction v as [n|b|s|xs IH|items IH|] using value_ind'; intros F K;
    try contradiction; try exact I.
  - cbn [decoded_form str_keyed bencodable] in *.
    apply fold_right_Forall in F, K. apply fold_right_Forall.
    rewrite Forall_forall in IH, F, K |- *. auto.
  - cbn [decoded_form str_keyed bencodable] in *.
    destruct F as [N F], K as [S K]. apply fold_right_Forall in F, K.
    split; [exact N|]. split; [exact S|]. apply fold_right_Forall.
    rewrite Forall_forall in IH, F, K |- *. auto.
Qed.

(** X4.  A decoded value is made of integers, byte strings, lists and
    dictionaries only, and the keys of each of its dictionaries are
    pairwise distinct.  When all these keys are byte strings, the value
    can be encoded again, and decoding that encoding (followed by at
    least one byte) gives a value equal to it. *)
Theorem bdecode_decoded_form (s : str) (v : value) (r : str) :
  bdecode s = Ok (v, r) ->
  decoded_form v /\
  (str_keyed v ->
   exists enc : str,
     bencode v = Ok enc /\
     forall rest : str, rest <> "" ->
       exists v', bdecode (enc ++ rest) = Ok (v', rest) /\ value_eqb v v' = true).
Proof.
  intros E. apply bdecode_fuel_form in E. split; [exact E|]. intros K.
  pose proof (decoded_form_bencodable v E K) as B.
  destruct (bencode_decodes v B) as (enc & Eenc & [_ D] & _).
  exists enc. split; [exact Eenc|]. intros rest Hr.
  exists (rebuilt v). split; [now apply D | now apply value_eqb_rebuilt].
Qed.

Lemma bdecode_decoded_form_witness :
  decoded_form (VDict [(KStr "b", VInt 1); (KStr "a", VInt 2)]) /\
  (str_keyed (VDict [(KStr "b", VInt 1); (KStr "a", VInt 2)]) ->
   exists enc : str,
     bencode (VDict [(KStr "b", VInt 1); (KStr "a", VInt 2)]) = Ok enc /\
     forall rest : str, rest <> "" ->
       exists v', bdecode (enc ++ rest) = Ok (v', rest) /\
                  value_eqb (VDict [(KStr "b", VInt 1); (KStr "a", VInt 2)]) v' = true).
Proof.
  apply (bdecode_decoded_form "d1:bi1e1:ai2e1:bi1ee" _ ""). reflexivity.
Defined.

(** ** Repeated keys *)

Lemma dict_getitem_setitem_same {V : Type} (d : list (dkey * V)) (k : dkey) (v : V) :
  dict_getitem (dict_setitem d k v) k = Ok v.
Proof.
  induction d as [|[k' v'] d IH]; cbn [dict_setitem dict_getitem].
  - now rewrite dkey_eqb_refl.
  - destruct (dkey_eqb k' k) eqn:E; cbn [dict_getitem]; rewrite E; auto.
Qed.

Lemma dict_getitem_setitem_other {V : Type} (d : list (dkey * V)) (k k' : dkey) (v : V) :
  k <> k' -> dict_getitem (dict_setitem d k v) k' = dict_getitem d k'.
Proof.
  intros Hne. induction d as [|[k0 v0] d IH]; cbn [dict_setitem dict_getitem].
  - destruct (dkey_eqb_spec k k'); [contradiction | reflexivity].
  - destruct (dkey_eqb_spec k0 k) as [->|H0]; cbn [dict_getitem].
    + destruct (dkey_eqb_spec k k'); [contradiction | reflexivity].
    + destruct (dkey_eqb k0 k'); [reflexivity | exact IH].
Qed.

Lemma dict_fill_app (pre : list value) :
  forall (post : list value) (acc : dict),
    Nat.even (List.length pre) = true ->
    dict_fill (pre ++ post) acc = (d <- dict_fill pre acc ;; dict_fill post d).
Proof.
  induction pre as [pre IH] using (well_founded_induction
    (Wf_nat.well_founded_ltof _ (@List.length value))).
  intros post acc E. destruct pre as [|k [|v pre]]; [reflexivity | discriminate |].
  cbn [app dict_fill]. destruct (key_of_value k) as [key| |]; cbn [bind];
    try reflexivity.
  apply IH; [unfold Wf_nat.ltof; simpl; lia | exact E].
Qed.

Lemma dict_fill_untouched (items : list value) (key : dkey) :
  forall acc d : dict,
    (forall k, In k (key_entries items) -> key_of_value k <> Ok key) ->
    dict_fill items acc = Ok d -> dict_getitem d key = dict_getitem acc key.
Proof.
  induction items as [items IH] using (well_founded_induction
    (Wf_nat.well_founded_ltof _ (@List.length value))).
  intros acc d H. destruct items as [|k [|v rest]]; try (now intros [= <-]).
  cbn [dict_fill]. destruct (key_of_value k) as [key'| |] eqn:K; cbn [bind];
    try discriminate.
  intros D. rewrite (IH rest) with (acc := dict_setitem acc key' v) (d := d);
    [|unfold Wf_nat.ltof; simpl; lia| |exact D].
  - apply dict_getitem_setitem_other. intros ->. apply (H k); [now left | exact K].
  - intros k' Hk'. apply H. now right.
Qed.

(** X5.  When a key occurs several times in the body of a dictionary,
    the decoded dictionary holds it once, with the value of its last
    occurrence. *)
Theorem bdecode_dict_last_wins (s rest : str) (d : dict) (pre post : list value)
        (k v : value) (key : dkey) :
  bdecode (String "d" s) = Ok (VDict d, rest) ->
  bdecode (String "l" s) = Ok (VList (pre ++ k :: v :: post), rest) ->
  Nat.even (List.length pre) = true ->
  key_of_value k = Ok key ->
  (forall k', In k' (key_entries post) -> key_of_value k' <> Ok key) ->
  dict_getitem d key = Ok v /\ NoDup (dict_keys d).
Proof.
  intros D L E K H. split.
  - rewrite bdecode_d in D. rewrite bdecode_l in L. unfold bdecode_dict in D.
    cbn [item0 bind slice_from append] in D.
    change (negb (Ascii.eqb "d" "d")) with false in D. cbv iota in D.
    rewrite L in D. destruct (negb _); [discriminate|].
    destruct (dict_fill _ []) as [d'| |] eqn:F; cbn [bind] in D; try discriminate.
    injection D as <-. rewrite dict_fill_app in F by exact E.
    destruct (dict_fill pre []) as [d1| |]; cbn [bind] in F; try discriminate.
    cbn [dict_fill] in F. rewrite K in F. cbn [bind] in F.
    rewrite (dict_fill_untouched post key _ _ H F).
    apply dict_getitem_setitem_same.
  - apply bdecode_fuel_form in D. apply D.
Qed.

Lemma bdecode_dict_last_wins_witness :
  dict_getitem [(KStr "a", VInt 2); (KStr "b", VInt 3)] (KStr "a") = Ok (VInt 2) /\
  NoDup (dict_keys [(KStr "a", VInt 2); (KStr "b", VInt 3)]).
Proof.
  apply (bdecode_dict_last_wins "1:ai1e1:bi3e1:ai2ee" ""
           [(KStr "a", VInt 2); (KStr "b", VInt 3)]
           [VStr "a"; VInt 1; VStr "b"; VInt 3] [] (VStr "a") (VInt 2) (KStr "a"));
    try reflexivity.
  intros k' [].
Defined.

(** ** What the integer and string parsers consume *)

Lemma partition_spec (sep : ascii) (s before found after : str) :
  partition sep s = (before, found, after) ->
  (s = (before ++ String sep after)%string /\ occurs sep before = false /\
   found = String sep "") \/
  (occurs sep s = false /\ before = s /\ found = "" /\ after = "").
Proof.
  revert before found after. induction s as [|c s IH]; intros b f a.
  - cbn [partition occurs]. intros [= <- <- <-]. right. auto.
  - cbn [partition occurs]. destruct (Ascii.eqb c sep) eqn:Hc.
    + apply Ascii.eqb_eq in Hc. subst c. intros [= <- <- <-]. left. auto.
    + destruct (partition sep s) as [[b' f'] a'] eqn:P. intros [= <- <- <-].
      destruct (IH _ _ _ eq_refl) as [(-> & O & ->)|(O & -> & -> & ->)].
      * left. cbn [append occurs]. rewrite Hc, O. auto.
      * right. cbn [orb]. rewrite O. auto.
Qed.

Lemma slice_to_length (n : nat) (s : str) :
  (n <= String.length s)%nat -> String.length (slice_to n s) = n.
Proof.
  revert s. induction n as [|n IH]; intros [|c s] H; cbn in *; try lia.
  now rewrite IH by lia.
Qed.

Lemma bdecode_int_sound (s : str) (v : value) (r : str) :
  bdecode_int s = Ok (v, r) ->
  exists (text : str) (n : Z),
    s = ("i" ++ text ++ "e" ++ r)%string /\ occurs "e" text = false /\
    long_of_str text = Some n /\ v = VInt n /\ r <> "".
Proof.
  unfold bdecode_int. destruct (len s <=? 2); [discriminate|].
  destruct s as [|c s]; [discriminate|].
  destruct (Ascii.eqb_spec c "i") as [->|Hne].
  2:{ destruct c as [[] [] [] [] [] [] [] []]; try discriminate. congruence. }
  change (false || negb true) with false. cbv iota.
  destruct (partition "e" (String "i" s)) as [[before found] after] eqn:P.
  destruct (truthy after) eqn:T; cbn [negb]; [|discriminate].
  apply partition_spec in P as [(E & O & _)|(_ & _ & _ & ->)]; [|discriminate].
  unfold int_factory. destruct (long_of_str _) as [n|] eqn:L; cbn [bind];
    [|discriminate].
  intros [= <- <-]. destruct before as [|b before]; [discriminate|].
  cbn [append] in E. injection E as <- E. cbn [slice_from] in L.
  cbn [occurs] in O. apply orb_false_iff in O as [_ O].
  exists before, n. repeat split; auto.
  - cbn [append]. now rewrite E.
  - intros ->. discriminate.
Qed.

Lemma bdecode_int_complete (text : str) (n : Z) (r : str) :
  occurs "e" text = false -> long_of_str text = Some n -> r <> "" ->
  bdecode_int ("i" ++ text ++ "e" ++ r) = Ok (VInt n, r).
Proof.
  intros O L Hr. unfold bdecode_int. cbn [append].
  replace (len _ <=? 2) with false.
  2:{ symmetry. apply Z.leb_gt. rewrite len_cons, len_append, len_cons.
      assert (text <> "") as Ht by (intros ->; discriminate).
      pose proof (len_pos text Ht). pose proof (len_pos r Hr). lia. }
  cbn [orb negb].
  change (String "i" (text ++ String "e" r))
    with (String "i" text ++ String "e" r)%string.
  rewrite partition_found by (cbn [occurs]; now rewrite O).
  rewrite (truthy_true r Hr). cbn [negb slice_from]. unfold int_factory.
  now rewrite L.
Qed.

(** X6.  The integer parser succeeds exactly on the buffers made of
    [i], a text without [e] that [long] accepts, [e], and a non-empty
    remainder; it returns the number that [long] reads and that
    remainder. *)
Theorem bdecode_int_ok_iff (s : str) (n : Z) (r : str) :
  bdecode_int s = Ok (VInt n, r) <->
  exists text : str,
    s = ("i" ++ text ++ "e" ++ r)%string /\ occurs "e" text = false /\
    long_of_str text = Some n /\ r <> "".
Proof.
  split.
  - intros E. apply bdecode_int_sound in E as (text & m & -> & O & L & [= ->] & Hr).
    eauto.
  - intros (text & -> & O & L & Hr). now apply bdecode_int_complete.
Qed.

Lemma bdecode_int_ok_iff_witness :
  bdecode_int "i-12exyz" = Ok (VInt (-12), "xyz") /\
  exists text : str,
    "i+7ez" = ("i" ++ text ++ "e" ++ "z")%string /\ occurs "e" text = false /\
    long_of_str text = Some 7 /\ "z" <> "".
Proof.
  split.
  - apply (proj2 (bdecode_int_ok_iff "i-12exyz" (-12) "xyz")).
    exists "-12". repeat split. discriminate.
  - apply (proj1 (bdecode_int_ok_iff "i+7ez" 7 "z")). reflexivity.
Defined.

Lemma bdecode_str_sound (s : str) (v : value) (r : str) :
  bdecode_str s = Ok (v, r) ->
  exists before data : str,
    s = (before ++ ":" ++ data ++ r)%string /\ occurs ":" before = false /\
    int_of_str before = Some (len data) /\ v = VStr data /\
    (data ++ r)%string <> "".
Proof.
  unfold bdecode_str.
  destruct (partition ":" s) as [[before found] after] eqn:P.
  destruct (truthy after) eqn:T; cbn [negb]; [|discriminate].
  apply partition_spec in P as [(E & O & _)|(_ & _ & _ & ->)]; [|discriminate].
  destruct (int_of_str before) as [n|] eqn:I; [|discriminate].
  destruct (Z.ltb_spec n 0) as [|Hn]; [discriminate|].
  destruct (Z.ltb_spec (len after) n) as [|Hl]; [discriminate|].
  intros [= <- <-]. exists before, (slice_to (Z.to_nat n) after).
  unfold len in Hl |- *.
  rewrite slice_to_length, Z2Nat.id by lia.
  cbn [append]. rewrite slice_to_from. repeat split; auto.
  intros ->. discriminate.
Qed.

Lemma bdecode_str_complete (before data r : str) :
  occurs ":" before = false -> int_of_str before = Some (len data) ->
  (data ++ r)%string <> "" ->
  bdecode_str (before ++ ":" ++ data ++ r) = Ok (VStr data, r).
Proof.
  intros O I Hne. unfold bdecode_str. cbn [append].
  rewrite partition_found by exact O.
  rewrite (truthy_true _ Hne), I. cbn [negb].
  replace (len data <? 0) with false by (symmetry; apply Z.ltb_ge, len_nonneg).
  replace (len (data ++ r) <? len data) with false.
  2:{ symmetry. apply Z.ltb_ge. rewrite len_append. pose proof (len_nonneg r). lia. }
  unfold len. rewrite Nat2Z.id, slice_to_append, slice_from_append. reflexivity.
Qed.

(** X7.  The string parser succeeds exactly on the buffers made of a
    literal without colon that [int] reads as the length of the result,
    a colon, the result, and the remainder, where at least one byte
    follows the colon; it returns that result and that remainder. *)
Theorem bdecode_str_ok_iff (s data r : str) :
  bdecode_str s = Ok (VStr data, r) <->
  exists before : str,
    s = (before ++ ":" ++ data ++ r)%string /\ occurs ":" before = false /\
    int_of_str before = Some (len data) /\ (data ++ r)%string <> "".
Proof.
  split.
  - intros E. apply bdecode_str_sound in E as (before & d & -> & O & I & [= ->] & H).
    eauto.
  - intros (before & -> & O & I & H). now apply bdecode_str_complete.
Qed.

Lemma bdecode_str_ok_iff_witness :
  bdecode_str "03:abcde" = Ok (VStr "abc", "de") /\
  exists before : str,
    "5:hello" = (before ++ ":" ++ "hello" ++ "")%string /\ occurs ":" before = false /\
    int_of_str before = Some (len "hello") /\ ("hello" ++ "")%string <> "".
Proof.
  split.
  - apply (proj2 (bdecode_str_ok_iff "03:abcde" "abc" "de")).
    exists "03". repeat split. discriminate.
  - apply (proj1 (bdecode_str_ok_iff "5:hello" "hello" "")). reflexivity.
Defined.

(** ** Integers that the encoder never writes *)

Lemma span_digits_suffix (ds : str) (c : ascii) (rest : str) :
  all_digits ds = true -> isdigit c = false ->
  span_digits (ds ++ String c rest) = (ds, String c rest).
Proof.
  intros H Hc. induction ds as [|d ds IH]; cbn [append span_digits].
  - now rewrite Hc.
  - cbn [all_digits] in H. apply andb_true_iff in H as [Hd Hds].
    now rewrite Hd, IH.
Qed.

Lemma long_of_str_plus (ds : str) :
  all_digits ds = true -> ds <> "" ->
  long_of_str ("+" ++ ds) = Some (digits_value 0 ds).
Proof.
  intros Hall Hne. destruct ds as [|c ds]; [congruence|].
  pose proof Hall as Hc. cbn [all_digits] in Hc. apply andb_true_iff in Hc as [Hc _].
  unfold long_of_str, parse_literal. cbn [append skip_space].
  change (isspace "+") with false. cbv iota. cbn [skip_space].
  rewrite (isdigit_not_space c Hc), span_digits_all by exact Hall. reflexivity.
Qed.

Lemma long_of_str_suffix (ds : str) :
  all_digits ds = true -> ds <> "" ->
  long_of_str (ds ++ "L") = Some (digits_value 0 ds).
Proof.
  intros Hall Hne. destruct ds as [|c ds]; [congruence|].
  pose proof Hall as Hc. cbn [all_digits] in Hc. apply andb_true_iff in Hc as [Hc _].
  unfold long_of_str, parse_literal. cbn [append skip_space].
  rewrite (isdigit_not_space c Hc), sign_of_digit by exact Hc.
  cbn [skip_space]. rewrite (isdigit_not_space c Hc).
  change (String c (ds ++ "L")) with (String c ds ++ String "L" "")%string.
  rewrite span_digits_suffix by (exact Hall || reflexivity). reflexivity.
Qed.

(** X8.  The decoder accepts integers in forms that the encoder never
    writes: with a plus sign, with the suffix [L], with leading zeros,
    and minus zero.  They denote the same number as the canonical form,
    so that different buffers decode to the same value. *)
Theorem bdecode_int_lenient (ds rest : str) :
  all_digits ds = true -> ds <> "" -> rest <> "" ->
  bdecode ("i+" ++ ds ++ "e" ++ rest) = Ok (VInt (digits_value 0 ds), rest) /\
  bdecode ("i" ++ ds ++ "Le" ++ rest) = Ok (VInt (digits_value 0 ds), rest) /\
  bdecode ("i0" ++ ds ++ "e" ++ rest) = Ok (VInt (digits_value 0 ds), rest) /\
  bdecode ("i-0e" ++ rest) = Ok (VInt 0, rest).
Proof.
  intros Hall Hne Hr.
  assert (forall text n, occurs "e" text = false -> long_of_str text = Some n ->
                         bdecode ("i" ++ text ++ "e" ++ rest) = Ok (VInt n, rest)) as H.
  { intros text n O L. cbn [append]. rewrite bdecode_i.
    now apply (bdecode_int_complete text n rest). }
  split; [|split; [|split]].
  - apply (H ("+" ++ ds)%string).
    + cbn [append occurs]. apply occurs_digits; [reflexivity | exact Hall].
    + now apply long_of_str_plus.
  - pose proof (H (ds ++ "L")%string (digits_value 0 ds)) as HL.
    rewrite !append_assoc in HL. apply HL.
    + rewrite occurs_append, (occurs_digits "e" ds) by (reflexivity || exact Hall).
      reflexivity.
    + now apply long_of_str_suffix.
  - apply (H ("0" ++ ds)%string).
    + cbn [append occurs]. apply occurs_digits; [reflexivity | exact Hall].
    + apply (parse_literal_digits true false ("0" ++ ds)); [|discriminate].
      cbn [append all_digits]. now rewrite Hall.
  - apply (H "-0" 0); reflexivity.
Qed.

Lemma bdecode_int_lenient_witness :
  bdecode "i+42ex" = Ok (VInt 42, "x") /\
  bdecode "i42Lex" = Ok (VInt 42, "x") /\
  bdecode "i042ex" = Ok (VInt 42, "x") /\
  bdecode "i-0ex" = Ok (VInt 0, "x").
Proof.
  apply (bdecode_int_lenient "42" "x"); [reflexivity | discriminate | discriminate].
Defined.

(** ** The decoder does not look past the value *)

Lemma bdecode_list_loop_final f (n : nat) :
  forall leftovers result result' leftovers',
    bdecode_list_loop f n leftovers result = Ok (result', leftovers') ->
    leftovers' = "" \/ exists t, leftovers' = String "e" t.
Proof.
  induction n as [|n IH]; intros l res res' l'; [discriminate|].
  rewrite bdecode_list_loop_step. destruct l as [|c l]; [intros [= <- <-]; now left|].
  destruct (Ascii.eqb_spec c "e") as [->|Hne]; [intros [= <- <-]; right; eauto|].
  destruct (f (String c l)) as [[v r]| |]; cbn [bind fst snd]; try discriminate.
  apply IH.
Qed.

Section IgnoresRest.
Variable N : nat.
Hypothesis IHN :
  forall q : str, (String.length q < N)%nat ->
    forall (r : str) (v : value) (r' : str),
      bdecode (q ++ r) = Ok (v, r) -> r' <> "" -> bdecode (q ++ r') = Ok (v, r').

Lemma bdecode_list_loop_rest (n : nat) :
  forall (q : str) (result result' : list value) (r : str),
    (String.length q < N)%nat ->
    bdecode_list_loop bdecode n (q ++ String "e" r) result = Ok (result', String "e" r) ->
    forall (n' : nat) (r' : str),
      (String.length (q ++ String "e" r') < n')%nat ->
      bdecode_list_loop bdecode n' (q ++ String "e" r') result
      = Ok (result', String "e" r').
Proof.
  induction n as [|n IH]; intros q res res' r Hq L n' r' Hn'; [discriminate|].
  destruct n' as [|n']; [lia|].
  rewrite bdecode_list_loop_step in L |- *.
  destruct q as [|c q]; cbn [append] in *.
  - change (Ascii.eqb "e" "e") with true in L |- *. cbv iota in L |- *.
    now injection L as <-.
  - destruct (Ascii.eqb_spec c "e") as [->|Hne].
    + injection L as _ L. exfalso. apply (f_equal String.length) in L.
      rewrite length_append in L. cbn [String.length] in L. lia.
    + destruct (bdecode (String c (q ++ String "e" r))) as [[v l]| |] eqn:E;
        cbn [bind fst snd] in L; try discriminate.
      pose proof (bdecode_list_loop_suffix bdecode bdecode_shrinking _ _ _ _ _ L)
        as [q' ->].
      pose proof (bdecode_shrinking _ _ _ E) as (z & Hz & Ez).
      rewrite <- append_assoc in Ez.
      change (String c (q ++ String "e" r))
        with ((String c q) ++ String "e" r)%string in Ez.
      apply append_inv_tail in Ez.
      assert (String.length q' < String.length (String c q))%nat as Hlen.
      { rewrite Ez, length_append. destruct z; [congruence | simpl; lia]. }
      change (String c (q ++ String "e" r'))
        with ((String c q) ++ String "e" r')%string.
      change (String c (q ++ String "e" r))
        with ((String c q) ++ String "e" r)%string in E.
      rewrite Ez, append_assoc in E |- *.
      rewrite (IHN z) with (r := (q' ++ String "e" r)%string) (v := v).
      * cbn [bind fst snd]. apply (IH q' _ _ r); [lia | exact L |].
        cbn [String.length] in Hn', Hlen. rewrite length_append in Hn' |- *.
        cbn [String.length] in *. lia.
      * assert (String.length z <= String.length (String c q))%nat
          by (rewrite Ez, length_append; lia). lia.
      * exact E.
      * destruct q'; discriminate.
Qed.

Lemma bdecode_list_rest (p r : str) (v : value) (r' : str) :
  (String.length p < N)%nat ->
  bdecode_list bdecode (String "l" (p ++ r)) = Ok (v, r) ->
  bdecode_list bdecode (String "l" (p ++ r')) = Ok (v, r').
Proof.
  intros Hp. unfold bdecode_list. cbn [item0 bind slice_from].
  change (negb (Ascii.eqb "l" "l")) with false. cbv iota.
  destruct (bdecode_list_loop bdecode _ (p ++ r) []) as [[res l]| |] eqn:L;
    cbn [bind]; try discriminate.
  destruct l as [|c l]; cbn [truthy negb slice_from]; [discriminate|].
  intros [= <- <-].
  destruct (bdecode_list_loop_final _ _ _ _ _ _ L) as [|[t [= -> <-]]];
    [discriminate|].
  pose proof (bdecode_list_loop_suffix bdecode bdecode_shrinking _ _ _ _ _ L)
    as [q E].
  change (String "e" l) with ("e" ++ l)%string in E.
  rewrite <- append_assoc in E. apply append_inv_tail in E. subst p.
  rewrite append_assoc in L |- *. cbn [append] in L |- *.
  assert (String.length q < N)%nat as Hq by (rewrite length_append in Hp; lia).
  rewrite (bdecode_list_loop_rest _ q [] res l Hq L
             (S (String.length (String "l" (q ++ String "e" r')))) r')
    by (cbn [String.length]; lia).
  reflexivity.
Qed.

Lemma bdecode_dict_rest (p r : str) (v : value) (r' : str) :
  (String.length p < N)%nat ->
  bdecode_dict bdecode (String "d" (p ++ r)) = Ok (v, r) ->
  bdecode_dict bdecode (String "d" (p ++ r')) = Ok (v, r').
Proof.
  intros Hp. unfold bdecode_dict. cbn [item0 bind slice_from append].
  change (negb (Ascii.eqb "d" "d")) with false. cbv iota.
  destruct (bdecode_list bdecode (String "l" (p ++ r))) as [[items l]|e|] eqn:L;
    [|destruct e; discriminate|discriminate].
  destruct items as [| | |xs| |]; try discriminate.
  destruct (negb _) eqn:Par; [discriminate|].
  destruct (dict_fill xs []) as [d| |] eqn:D; cbn [bind]; try discriminate.
  intros [= <- <-].
  rewrite (bdecode_list_rest p l (VList xs) r' Hp L), Par, D. reflexivity.
Qed.
End IgnoresRest.

Lemma bdecode_rest (N : nat) :
  forall p : str, (String.length p < N)%nat ->
    forall (r : str) (v : value) (r' : str),
      bdecode (p ++ r) = Ok (v, r) -> r' <> "" -> bdecode (p ++ r') = Ok (v, r').
Proof.
  induction N as [|N IH]; intros p Hp r v r' E Hr'; [lia|].
  destruct p as [|c p].
  - apply bdecode_shrinking, proper_suffix_length in E. cbn [append] in E. lia.
  - cbn [append String.length] in *. rewrite bdecode_unfold in E |- *.
    cbn [bdecode_body] in E |- *.
    destruct (Ascii.eqb_spec c "i") as [->|Hi].
    { apply bdecode_int_sound in E as (text & n & Es & O & L & -> & Hr).
      cbn [append] in Es. injection Es as Es.
      change (String "e" r) with ("e" ++ r)%string in Es.
      rewrite <- append_assoc in Es. apply append_inv_tail in Es. subst p.
      rewrite append_assoc.
      exact (bdecode_int_complete text n r' O L Hr'). }
    destruct (Ascii.eqb_spec c "l") as [->|Hl].
    { apply (bdecode_list_rest N IH p r v r'); [lia | exact E]. }
    destruct (Ascii.eqb_spec c "d") as [->|Hd].
    { apply (bdecode_dict_rest N IH p r v r'); [lia | exact E]. }
    destruct (isdigit c) eqn:Hc; [|discriminate].
    apply bdecode_str_sound in E as (before & data & Es & O & I & -> & Hne).
    change (String c (p ++ r)) with (String c p ++ r)%string in Es.
    change (":" ++ data ++ r)%string with (String ":" (data ++ r)) in Es.
    change (String ":" (data ++ r)) with ((":" ++ data) ++ r)%string in Es.
    rewrite <- append_assoc in Es. apply append_inv_tail in Es.
    change (String c (p ++ r')) with (String c p ++ r')%string.
    rewrite Es, !append_assoc.
    apply (bdecode_str_complete before data r' O I).
    destruct data; [exact Hr' | discriminate].
Qed.

(** X9.  The decoder does not look past the value that it reads: when
    a buffer is decoded to a value and a remainder, replacing the
    remainder by any non-empty bytes gives the same value and these
    bytes; for a list or a dictionary the remainder can also be removed. *)
Theorem bdecode_ignores_rest (p r : str) (v : value) :
  bdecode (p ++ r) = Ok (v, r) ->
  (forall r' : str, r' <> "" -> bdecode (p ++ r') = Ok (v, r')) /\
  match v with
  | VList _ | VDict _ => bdecode p = Ok (v, "")
  | _ => True
  end.
Proof.
  intros E. split.
  - intros r' Hr'. exact (bdecode_rest (S (String.length p)) p ltac:(lia) r v r' E Hr').
  - destruct p as [|c p].
    { apply bdecode_shrinking, proper_suffix_length in E. cbn [append] in E. lia. }
    cbn [append] in E. rewrite bdecode_unfold in E. cbn [bdecode_body] in E.
    pose proof (bdecode_rest (S (String.length p))) as IH.
    destruct (Ascii.eqb_spec c "i") as [->|Hi].
    { apply bdecode_int_sound in E as (text & n & _ & _ & _ & -> & _). exact I. }
    destruct (Ascii.eqb_spec c "l") as [->|Hl].
    { apply (bdecode_list_rest _ IH p r v "") in E; [|lia].
      rewrite append_nil_r in E. rewrite bdecode_l.
      destruct v; try exact I; exact E. }
    destruct (Ascii.eqb_spec c "d") as [->|Hd].
    { apply (bdecode_dict_rest _ IH p r v "") in E; [|lia].
      rewrite append_nil_r in E. rewrite bdecode_d.
      destruct v; try exact I; exact E. }
    destruct (isdigit c) eqn:Hc; [|discriminate].
    apply bdecode_str_sound in E as (before & data & _ & _ & _ & -> & _). exact I.
Qed.

Lemma bdecode_ignores_rest_witness :
  (forall r' : str, r' <> "" ->
     bdecode ("l1:ai-3ee" ++ r') = Ok (VList [VStr "a"; VInt (-3)], r')) /\
  bdecode "l1:ai-3ee" = Ok (VList [VStr "a"; VInt (-3)], "").
Proof.
  apply (bdecode_ignores_rest "l1:ai-3ee" "tail" (VList [VStr "a"; VInt (-3)])).
  reflexivity.
Defined.

(** ** What the list parser consumes *)

Lemma bdecode_list_loop_chunks (n : nat) :
  forall (q : str) (result result' : list value) (r : str),
    bdecode_list_loop bdecode n (q ++ String "e" r) result = Ok (result', String "e" r) ->
    exists pairs : list (str * value),
      q = String.concat "" (map fst pairs) /\
      result' = (result ++ map snd pairs)%list /\
      Forall (fun p => decodes_to (fst p) (snd p)) pairs.
Proof.
  induction n as [|n IH]; intros q res res' r L; [discriminate|].
  rewrite bdecode_list_loop_step in L.
  destruct q as [|c q]; cbn [append] in L.
  - change (Ascii.eqb "e" "e") with true in L. cbv iota in L.
    injection L as <-. exists []. rewrite app_nil_r. repeat split. constructor.
  - destruct (Ascii.eqb_spec c "e") as [->|Hne].
    + injection L as _ L. exfalso. apply (f_equal String.length) in L.
      rewrite length_append in L. cbn [String.length] in L. lia.
    + destruct (bdecode (String c (q ++ String "e" r))) as [[v l]| |] eqn:E;
        cbn [bind fst snd] in L; try discriminate.
      pose proof (bdecode_list_loop_suffix bdecode bdecode_shrinking _ _ _ _ _ L)
        as [q' ->].
      pose proof (bdecode_shrinking _ _ _ E) as (z & Hz & Ez).
      rewrite <- append_assoc in Ez.
      change (String c (q ++ String "e" r))
        with ((String c q) ++ String "e" r)%string in Ez, E.
      apply append_inv_tail in Ez. rewrite Ez, append_assoc in E.
      destruct (IH q' _ _ r L) as (pairs & -> & -> & F).
      exists ((z, v) :: pairs). cbn [map fst snd]. rewrite concat_cons, <- app_assoc.
      split; [exact Ez|]. split; [reflexivity|]. constructor; [|exact F].
      cbn [fst snd]. split.
      * destruct z as [|a z]; [congruence|]. cbn [append] in Ez.
        injection Ez as <- _. eauto.
      * intros rest Hrest.
        exact (bdecode_rest (S (String.length z)) z ltac:(lia) _ v rest E Hrest).
Qed.

(** X10.  The list parser succeeds exactly on the buffers made of [l],
    a sequence of chunks, [e], and the remainder, where each chunk is
    decoded, whatever non-empty input follows it, to one item of the
    resulting list, in order. *)
Theorem bdecode_list_ok_iff (s r : str) (items : list value) :
  bdecode (String "l" s) = Ok (VList items, r) <->
  exists pairs : list (str * value),
    s = (String.concat "" (map fst pairs) ++ "e" ++ r)%string /\
    items = map snd pairs /\
    Forall (fun p => decodes_to (fst p) (snd p)) pairs.
Proof.
  rewrite bdecode_l. split.
  - unfold bdecode_list. cbn [item0 bind slice_from].
    change (negb (Ascii.eqb "l" "l")) with false. cbv iota.
    destruct (bdecode_list_loop bdecode _ s []) as [[res l]| |] eqn:L;
      cbn [bind]; try discriminate.
    destruct l as [|c l]; cbn [truthy negb slice_from]; [discriminate|].
    intros [= <- <-].
    destruct (bdecode_list_loop_final _ _ _ _ _ _ L) as [|[t [= -> <-]]];
      [discriminate|].
    pose proof (bdecode_list_loop_suffix bdecode bdecode_shrinking _ _ _ _ _ L)
      as [q ->].
    destruct (bdecode_list_loop_chunks _ q [] res l L) as (pairs & -> & -> & F).
    exists pairs. repeat split. exact F.
  - intros (pairs & -> & -> & F). exact (bdecode_list_decodes pairs r F).
Qed.

Lemma bdecode_list_ok_iff_witness :
  bdecode "l4:spami7eexyz" = Ok (VList [VStr "spam"; VInt 7], "xyz") /\
  exists pairs : list (str * value),
    "lee" = (String.concat "" (map fst pairs) ++ "e" ++ "")%string /\
    [VList []] = map snd pairs /\
    Forall (fun p => decodes_to (fst p) (snd p)) pairs.
Proof.
  split.
  - apply (proj2 (bdecode_list_ok_iff "4:spami7eexyz" "xyz" [VStr "spam"; VInt 7])).
    exists [("4:spam", VStr "spam"); ("i7e", VInt 7)].
    split; [reflexivity|]. split; [reflexivity|].
    constructor; [apply (bencode_str_decodes "spam")|].
    constructor; [apply (bencode_int_decodes 7) | constructor].
  - apply (proj1 (bdecode_list_ok_iff "lee" "" [VList []])). reflexivity.
Defined.

(** ** The encoding of a list *)

Lemma join_map_concat {A : Type} (f : A -> outcome str) (xs : list A) (encs : list str) :
  Forall2 (fun x e => f x = Ok e) xs encs ->
  join_map f xs = Ok (String.concat "" encs).
Proof.
  induction 1 as [|x e xs encs E _ IH]; [reflexivity|].
  cbn [join_map]. rewrite E, IH. cbn [bind]. now rewrite concat_cons.
Qed.

Lemma join_map_first_raise {A : Type} (f : A -> outcome str) (pre : list A) (x : A)
      (post : list A) (e : exn) :
  Forall (fun y => exists enc, f y = Ok enc) pre -> f x = Raise e ->
  join_map f (pre ++ x :: post) = Raise e.
Proof.
  induction 1 as [|y pre [enc E] _ IH]; intros Hx; cbn [app join_map].
  - now rewrite Hx.
  - rewrite E, (IH Hx). reflexivity.
Qed.

Lemma concat_app (a b : list str) :
  String.concat "" (a ++ b) = (String.concat "" a ++ String.concat "" b)%string.
Proof.
  induction a as [|x a IH]; [reflexivity|].
  cbn [app]. now rewrite !concat_cons, IH, append_assoc.
Qed.

(** X11.  The encoding of a list is [l], the encodings of its elements
    in order, and [e]; the encoding of a concatenation of lists has the
    concatenated bodies.  When an element cannot be encoded, the list
    fails with the exception of the first such element. *)
Theorem bencode_list_encodings (xs : list value) :
  (forall encs : list str,
      Forall2 (fun x e => bencode x = Ok e) xs encs ->
      bencode (VList xs) = Ok ("l" ++ String.concat "" encs ++ "e")%string) /\
  (forall (ys : list value) (a b : str),
      bencode (VList xs) = Ok ("l" ++ a ++ "e")%string ->
      bencode (VList ys) = Ok ("l" ++ b ++ "e")%string ->
      bencode (VList (xs ++ ys)) = Ok ("l" ++ a ++ b ++ "e")%string) /\
  (forall (pre post : list value) (x : value) (e : exn),
      xs = (pre ++ x :: post)%list ->
      Forall (fun y => exists enc, bencode y = Ok enc) pre ->
      bencode x = Raise e ->
      bencode (VList xs) = Raise e).
Proof.
  split; [|split].
  - intros encs H. rewrite bencode_unfold. cbn [bencode_body]. unfold bencode_list.
    now rewrite (join_map_concat bencode xs encs H).
  - intros ys a b. rewrite !bencode_unfold. cbn [bencode_body]. unfold bencode_list.
    destruct (join_map bencode xs) as [a'| |] eqn:Ja; cbn [bind]; try discriminate.
    destruct (join_map bencode ys) as [b'| |] eqn:Jb; cbn [bind]; try discriminate.
    intros [= Ha] [= Hb]. apply append_inv_tail in Ha, Hb. subst a' b'.
    assert (join_map bencode (xs ++ ys) = Ok (a ++ b)%string) as J.
    { clear -Ja Jb. revert a Ja. induction xs as [|x xs IH]; intros a Ja.
      - cbn in Ja. injection Ja as <-. exact Jb.
      - cbn [app join_map] in Ja |- *.
        destruct (bencode x) as [s| |]; cbn [bind] in Ja |- *; try discriminate.
        destruct (join_map bencode xs) as [t| |]; cbn [bind] in Ja; try discriminate.
        injection Ja as <-. rewrite (IH t eq_refl). cbn [bind].
        now rewrite append_assoc. }
    rewrite J. cbn [bind]. now rewrite append_assoc.
  - intros pre post x e -> Hpre Hx. rewrite bencode_unfold. cbn [bencode_body].
    unfold bencode_list. now rewrite (join_map_first_raise bencode pre x post e Hpre Hx).
Qed.

Lemma bencode_list_encodings_witness :
  bencode (VList [VInt 1; VStr "ab"]) = Ok "li1e2:abe" /\
  bencode (VList ([VInt 1] ++ [VStr "ab"])) = Ok ("l" ++ "i1e" ++ "2:ab" ++ "e")%string /\
  bencode (VList [VInt 1; VNone; VStr "ab"]) = Raise (BencodeError msg_unrecognized).
Proof.
  split; [|split].
  - apply (proj1 (bencode_list_encodings [VInt 1; VStr "ab"]) ["i1e"; "2:ab"]).
    repeat constructor.
  - apply (proj1 (proj2 (bencode_list_encodings [VInt 1])) [VStr "ab"] "i1e" "2:ab");
      reflexivity.
  - apply (proj2 (proj2 (bencode_list_encodings [VInt 1; VNone; VStr "ab"]))
             [VInt 1] [VStr "ab"] VNone); try reflexivity.
    constructor; [|constructor]. eexists. reflexivity.
Defined.

(** ** Errors inside containers *)

Lemma bdecode_list_first_raise (c : ascii) (t : str) (e : exn) :
  c <> "e"%char -> bdecode (String c t) = Raise e ->
  bdecode_list bdecode (String "l" (String c t)) = Raise e.
Proof.
  intros Hc E. unfold bdecode_list. cbn [item0 bind slice_from].
  change (negb (Ascii.eqb "l" "l")) with false. cbv iota.
  rewrite bdecode_list_loop_step. apply Ascii.eqb_neq in Hc. rewrite Hc, E.
  reflexivity.
Qed.

(** X12.  An exception raised by the first element at the bottom of
    nested lists and dictionaries reaches the caller: lists pass it on
    unchanged, and every enclosing dictionary wraps the message of a
    [BencodeError] once and passes any other exception on unchanged. *)
Theorem bdecode_error_nesting (opening : str) (c : ascii) (t : str) (e : exn) :
  openings opening = true -> c <> "e"%char ->
  bdecode (String c t) = Raise e ->
  bdecode (opening ++ String c t) = Raise (nest_exn opening e).
Proof.
  intros Ho Hc E. induction opening as [|o opening IH]; [exact E|].
  cbn [openings] in Ho. apply andb_true_iff in Ho as [Ho Hrest].
  specialize (IH Hrest). cbn [append nest_exn].
  assert (exists c' t', (opening ++ String c t)%string = String c' t' /\ c' <> "e"%char)
    as (c' & t' & Et & Hc').
  { destruct opening as [|o' opening']; [cbn; eauto|].
    cbn [append]. exists o'. eexists. split; [reflexivity|].
    cbn [openings] in Hrest. apply andb_true_iff in Hrest as [Ho' _].
    intros ->. discriminate. }
  rewrite Et in IH |- *.
  pose proof (bdecode_list_first_raise c' t' _ Hc' IH) as L.
  apply orb_true_iff in Ho as [Ho|Ho]; apply Ascii.eqb_eq in Ho; subst o.
  - change (Ascii.eqb "l" "d") with false. cbv iota. rewrite bdecode_l. exact L.
  - change (Ascii.eqb "d" "d") with true. cbv iota. rewrite bdecode_d.
    unfold bdecode_dict. cbn [item0 bind slice_from append].
    change (negb (Ascii.eqb "d" "d")) with false. cbv iota. rewrite L.
    destruct (nest_exn opening e); reflexivity.
Qed.

Lemma bdecode_error_nesting_witness :
  bdecode "dld9:abc" =
  Raise (BencodeError (msg_dict_items (msg_dict_items msg_str_long))) /\
  bdecode "dliexe" = Raise ValueError.
Proof.
  split.
  - apply (bdecode_error_nesting "dld" "9" ":abc" (BencodeError msg_str_long));
      [reflexivity | discriminate | reflexivity].
  - apply (bdecode_error_nesting "dl" "i" "exe" ValueError);
      [reflexivity | discriminate | reflexivity].
Defined.

(** ** The encoding of a byte string *)

(** X13.  The encoding of a byte string is the canonical decimal
    numeral of its length, a colon, and the bytes as they are.  The
    decoder reads it back, with whatever follows as remainder, unless
    the string is empty and nothing follows. *)
Theorem bencode_str_length_prefix (s : str) :
  exists ds : str,
    canonical_digits (len s) ds /\
    bencode (VStr s) = Ok (ds ++ ":" ++ s)%string /\
    (forall rest : str, (s ++ rest)%string <> "" ->
                        bdecode ((ds ++ ":" ++ s) ++ rest) = Ok (VStr s, rest)) /\
    bdecode (bencode_str "") = Raise (BencodeError msg_str_colon).
Proof.
  destruct (format_d_sign (len s)) as (ds & C & E).
  pose proof (len_nonneg s) as Hs.
  replace (len s <? 0) with false in E by (symmetry; apply Z.ltb_ge; lia).
  rewrite Z.abs_eq in C by lia. cbn [sign_str append] in E.
  exists ds. split; [exact C|]. split; [|split; [|reflexivity]].
  - cbn [bencode]. unfold bencode_str. now rewrite E.
  - intros rest Hne. destruct C as (Hds & Hall & Hval & _).
    rewrite !append_assoc. cbn [append].
    pose proof (bdecode_str_digits ds s rest Hall Hds Hval) as D.
    cbn [append] in D. now rewrite D, (truthy_true _ Hne).
Qed.

Lemma bencode_str_length_prefix_witness :
  bdecode ("3:a:e" ++ "") = Ok (VStr "a:e", "").
Proof.
  destruct (bencode_str_length_prefix "a:e") as (ds & C & E & D & _).
  injection E as E. apply append_inv_tail in E. subst ds.
  apply (D ""). discriminate.
Defined.

(** ** Keys that are not byte strings *)

Lemma join_map_some_raise {A : Type} (f : A -> outcome str) (xs : list A)
      (x : A) (e : exn) :
  (forall y, In y xs -> (exists s, f y = Ok s) \/ f y = Raise e) ->
  In x xs -> f x = Raise e -> join_map f xs = Raise e.
Proof.
  induction xs as [|y xs IH]; intros H Hin Hx; [contradiction|].
  cbn [join_map]. destruct (H y) as [[s E]|E]; [now left| |now rewrite E].
  rewrite E. cbn [bind]. destruct Hin as [->|Hin]; [congruence|].
  rewrite IH; [reflexivity| |exact Hin|exact Hx].
  intros z Hz. apply H. now right.
Qed.

(** X14.  A dictionary with an integer key cannot be encoded: the key
    is cast to a string and the value is then looked up under the cast
    key, which raises [KeyError] unless that string is a key too. *)
Theorem bencode_dict_key_error (items : dict) (n : Z) :
  In (KInt n) (dict_keys items) ->
  ~ In (KStr (format_d n)) (dict_keys items) ->
  (forall k v, In (k, v) items -> exists enc, bencode v = Ok enc) ->
  bencode (VDict items) = Raise KeyError.
Proof.
  intros Hn Hs Hv. rewrite bencode_unfold. cbn [bencode_body]. unfold bencode_dict.
  rewrite (join_map_some_raise _ _ (format_d n) KeyError); [reflexivity| | |].
  - intros k _. destruct (dict_getitem items (KStr k)) as [v|e|] eqn:G; cbn [bind].
    + apply dict_getitem_ok in G. destruct (Hv _ _ G) as [enc E]. rewrite E.
      left. cbn [bind]. eauto.
    + apply dict_getitem_exn in G. subst. now right.
    + exfalso. revert G. apply dict_getitem_fuel.
  - eapply Permutation_in; [apply Permutation_sym, sort_perm|].
    change (format_d n) with (str_of_key (KInt n)). now apply in_map.
  - destruct (dict_getitem items (KStr (format_d n))) as [v|e|] eqn:G; cbn [bind].
    + exfalso. apply Hs. apply dict_getitem_ok in G. eapply dict_keys_in; eauto.
    + apply dict_getitem_exn in G. now subst.
    + exfalso. revert G. apply dict_getitem_fuel.
Qed.

Lemma bencode_dict_key_error_witness :
  bencode (VDict [(KStr "a", VInt 1); (KInt 7, VStr "x")]) = Raise KeyError.
Proof.
  apply (bencode_dict_key_error [(KStr "a", VInt 1); (KInt 7, VStr "x")] 7).
  - simpl. auto.
  - simpl. intros [H|[H|[]]]; discriminate.
  - intros k v [[= <- <-]|[[= <- <-]|[]]]; eexists; reflexivity.
Defined.
